(** * PaketVPN landing page: the service-health probing engine

    A shallow embedding of the ping-card code of [docs/script.js]
    ([setPingState], [withCacheBust], [probeRtt], [measureRtt],
    [randomWarnPing] and the per-card handler passed to [pingCards.map]),
    followed by the properties of the probe, the sampler and the
    classifier.

    Conventions of the embedding:
    - round-trip times are integers ([Z]): they come out of [Math.round];
    - clock readings ([performance.now()]) are binary64 numbers of
      milliseconds, kept as rationals ([Q]); their difference is rounded as
      IEEE 754 prescribes;
    - a timer fires no earlier than its delay, which [setTimeout] takes as
      a 32-bit integer; how much later it fires is for the browser to say;
    - the value of [Math.random()] is a binary64 number, kept as a dyadic
      fraction, and the product with [11] is rounded as IEEE 754
      prescribes;
    - asynchronous code is a state-and-exception monad over a [World] that
      holds the browser (network behaviour, random source, clock, the card's
      DOM) and a chronological trace of the effects performed. *)

From Stdlib Require Import ZArith QArith Qround List String Bool Lia.
From Stdlib Require Import Sorting.Sorted Sorting.Permutation DecimalString.
From Stdlib Require DecimalZ.
Import ListNotations.

Open Scope Z_scope.

(* ================================================================= *)
(** ** Fragments of the JavaScript runtime the code relies on *)

Module JS.

(** [Math.round x]: the integer nearest to [x], ties towards +infinity. *)
Definition Math_round (x : Q) : Z := Qfloor (x + (1 # 2))%Q.

(** [x < y] on clock readings. *)
Definition Qltb (x y : Q) : bool := negb (Qle_bool y x).

(** [String(n)] for an integer-valued Number. *)
Definition toString (n : Z) : string := NilZero.string_of_int (Z.to_int n).

(** [`${v}`] for a property that may be absent. *)
Definition template (v : option Z) : string :=
  match v with
  | Some n => toString n
  | None => "undefined"%string
  end.

(** [v < k] and [v <= k] where [v] may be [undefined]: [undefined]
    converts to [NaN] and every comparison with [NaN] is false. *)
Definition lt (v : option Z) (k : Z) : bool :=
  match v with Some n => n <? k | None => false end.

Definition le (v : option Z) (k : Z) : bool :=
  match v with Some n => n <=? k | None => false end.

(** [Array.prototype.sort(comparefn)]: a stable sort driven by the sign of
    [comparefn a b]; [insert] keeps [x] before the first element it does
    not come after. *)
Fixpoint insert (comparefn : Z -> Z -> Z) (x : Z) (l : list Z) : list Z :=
  match l with
  | [] => [x]
  | y :: l' =>
      if comparefn x y <? 0 then x :: y :: l'
      else y :: insert comparefn x l'
  end.

Definition Array_sort (comparefn : Z -> Z -> Z) (l : list Z) : list Z :=
  fold_left (fun acc x => insert comparefn x acc) l [].

(** [l[i]]: [undefined] out of range. *)
Definition index (l : list Z) (i : Z) : option Z :=
  if i <? 0 then None else nth_error l (Z.to_nat i).

(** A binary64 number [mantissa / 2 ^ scale]. *)
Record Double : Type := { mantissa : Z; scale : Z }.

(** The doubles [Math.random()] may return: those of [[0, 1)], with a
    significand of at most 53 bits. *)
Definition in_unit_interval (u : Double) : bool :=
  (0 <=? mantissa u) && (mantissa u <? 2 ^ 53) &&
  (0 <=? scale u) && (mantissa u <? 2 ^ scale u).

(** Rounding of a non-negative integer to 53 significant bits, to nearest,
    ties to even. *)
Definition round53 (p : Z) : Z :=
  if p <? 2 ^ 53 then p
  else
    let s := Z.log2 p - 52 in
    let q := p / 2 ^ s in
    let r := p mod 2 ^ s in
    let half := 2 ^ (s - 1) in
    let q' := if (half <? r) || ((r =? half) && Z.odd q) then q + 1 else q in
    q' * 2 ^ s.

(** [u * k] in binary64, for [u >= 0] and a small positive integer [k]. *)
Definition Double_mul (u : Double) (k : Z) : Double :=
  {| mantissa := round53 (mantissa u * k); scale := scale u |}.

(** [Math.floor d] for [d >= 0]. *)
Definition Math_floor (d : Double) : Z := mantissa d / 2 ^ scale d.

(** The integer nearest to [num / den], ties to even, for [0 <= num] and
    [0 < den]. *)
Definition nearest_even (num den : Z) : Z :=
  let q := num / den in
  let r := num mod den in
  if (den <? 2 * r) || ((2 * r =? den) && Z.odd q) then q + 1 else q.

(** The integer part of the binary logarithm of [n / d], for [0 < n] and
    [0 < d]. *)
Definition floor_log2 (n d : Z) : Z :=
  let e := Z.log2 n - Z.log2 d in
  if (if 0 <=? e then d * 2 ^ e <=? n else d <=? n * 2 ^ (- e)) then e
  else e - 1.

(** The binary64 number nearest to [n / d], for [0 < n] and [0 < d]: a
    significand of 53 bits, or fewer below [2 ^ -1022], where the numbers
    are the multiples of [2 ^ -1074]. (Values of [2 ^ 1024] and more, which
    round to [Infinity], are out of the reach of a clock.) *)
Definition binary64_pos (n d : Z) : Q :=
  let e := Z.max (floor_log2 n d - 52) (-1074) in
  if 0 <=? e then inject_Z (nearest_even n (d * 2 ^ e) * 2 ^ e)
  else Qmake (nearest_even (n * 2 ^ (- e)) d) (Z.to_pos (2 ^ (- e))).

(** Rounding of a real number to binary64, to nearest, ties to even. *)
Definition binary64 (x : Q) : Q :=
  let x := Qred x in
  match Qnum x with
  | 0 => 0%Q
  | Zpos n => binary64_pos (Zpos n) (Zpos (Qden x))
  | Zneg n => (- binary64_pos (Zpos n) (Zpos (Qden x)))%Q
  end.

(** [x - y] on two binary64 numbers: the exact difference, rounded. *)
Definition Double_sub (x y : Q) : Q := binary64 (x - y)%Q.

(** The conversion of an integer-valued Number to the Web IDL type [long],
    the type of the delay of [setTimeout]. *)
Definition long (x : Z) : Z := (x + 2 ^ 31) mod 2 ^ 32 - 2 ^ 31.

(** The delay [setTimeout(handler, ms)] arms its timer with: [ms] as a
    [long], and zero when that is negative. *)
Definition timer_delay (ms : Z) : Z := Z.max 0 (long ms).

(** How long after its delay a timer fires: never before it. *)
Definition lateness (l : Q) : Q := if Qle_bool 0 l then l else 0%Q.

End JS.

(* ================================================================= *)
(** ** Data model *)

(** The object returned by [probeRtt]: [{ ok: true, rtt }] or
    [{ ok: false }]. *)
Inductive ProbeResult : Type :=
| ProbeOk (rtt : Z)
| ProbeFailed.

Definition ok (r : ProbeResult) : bool :=
  match r with ProbeOk _ => true | ProbeFailed => false end.

(** The object returned by [measureRtt]; [rtt] is absent from the
    unreachable one. *)
Record AggregateResult : Type := {
  reachable : bool;
  rtt : option Z;
  successful : Z;
  samples : Z
}.

(** The [state] argument of [setPingState]. *)
Inductive PingState : Type := checking | up | warn | down.

Definition state_class (s : PingState) : string :=
  match s with
  | checking => "status--checking"
  | up => "status--up"
  | warn => "status--warn"
  | down => "status--down"
  end%string.

(** A [data-ping-card] element: its [data-ping-url] attribute, the class
    list of its [data-ping-status] child and the text of its
    [data-ping-value] child, when it has them. *)
Record Card : Type := {
  pingUrl : option string;
  statusEl : option (list string);
  valueEl : option string
}.

(** A parsed URL: its serialisation before the cache-busting parameter is
    set, and the [_pv] query parameter. *)
Record URL : Type := { href : string; _pv : option string }.

(** What the network does with one request: it completes, or it fails, at
    some time after the request started, or it never settles. The time is
    the one that passes on the clock of [performance.now()] until the code
    resumes: the exact difference of the two readings. *)
Inductive Settle : Type :=
| Fulfils (at_ms : Q)
| Rejects (at_ms : Q)
| Hangs.

Inductive Exn : Type := TypeError | NetworkError | AbortError | TimeoutError.

Inductive Completion (A : Type) : Type :=
| Normal (a : A)
| Throw (e : Exn).
Arguments Normal {A} a.
Arguments Throw {A} e.

Inductive Event : Type :=
| EvProbe (url : string) (timeoutMs : Z)
| EvFetch (target : URL) (cancellable : bool)
| EvAbort
| EvClearTimeout
| EvWait (ms : Z)
| EvSetPingState (state : PingState) (valueText : string).

(** The browser as one card's handler sees it. [net k] is the behaviour of
    the [k]-th request issued, [random k] the [k]-th value of
    [Math.random()], [URL_resolve raw] the result of
    [new URL(raw, window.location.href)] ([None]: the constructor throws).
    [clock] is what [performance.now()] reads; [wall k] is what [Date.now()]
    reads when the [k]-th request is prepared, on a clock of its own.
    Timers are the browser's: [deadline_late k] is how long after its delay
    the timer set against the [k]-th request fires, [request_first k]
    whether that request is served first when it settles at the very
    instant its timer fires, and [pause_late n] how long after its delay
    the timer of a pause fires that starts after [n] events. *)
Record World : Type := {
  hasAbortController : bool;
  URL_resolve : string -> option string;
  net : nat -> Settle;
  fetched : nat;
  random : nat -> JS.Double;
  drawn : nat;
  clock : Q;
  card : Card;
  trace : list Event;
  wall : nat -> Z;
  deadline_late : nat -> Q;
  request_first : nat -> bool;
  pause_late : nat -> Q
}.

Definition set_fetched (n : nat) (w : World) : World :=
  {| hasAbortController := hasAbortController w; URL_resolve := URL_resolve w;
     net := net w; fetched := n; random := random w; drawn := drawn w;
     clock := clock w; card := card w; trace := trace w;
     wall := wall w; deadline_late := deadline_late w;
     request_first := request_first w; pause_late := pause_late w |}.

Definition set_drawn (n : nat) (w : World) : World :=
  {| hasAbortController := hasAbortController w; URL_resolve := URL_resolve w;
     net := net w; fetched := fetched w; random := random w; drawn := n;
     clock := clock w; card := card w; trace := trace w;
     wall := wall w; deadline_late := deadline_late w;
     request_first := request_first w; pause_late := pause_late w |}.

Definition set_clock (t : Q) (w : World) : World :=
  {| hasAbortController := hasAbortController w; URL_resolve := URL_resolve w;
     net := net w; fetched := fetched w; random := random w; drawn := drawn w;
     clock := t; card := card w; trace := trace w;
     wall := wall w; deadline_late := deadline_late w;
     request_first := request_first w; pause_late := pause_late w |}.

Definition set_card (c : Card) (w : World) : World :=
  {| hasAbortController := hasAbortController w; URL_resolve := URL_resolve w;
     net := net w; fetched := fetched w; random := random w; drawn := drawn w;
     clock := clock w; card := c; trace := trace w;
     wall := wall w; deadline_late := deadline_late w;
     request_first := request_first w; pause_late := pause_late w |}.

Definition set_trace (t : list Event) (w : World) : World :=
  {| hasAbortController := hasAbortController w; URL_resolve := URL_resolve w;
     net := net w; fetched := fetched w; random := random w; drawn := drawn w;
     clock := clock w; card := card w; trace := t;
     wall := wall w; deadline_late := deadline_late w;
     request_first := request_first w; pause_late := pause_late w |}.

(* ================================================================= *)
(** ** The monad of asynchronous code *)

Definition Async (A : Type) : Type := World -> Completion A * World.

Definition ret {A} (a : A) : Async A := fun w => (Normal a, w).

Definition bind {A B} (c : Async A) (k : A -> Async B) : Async B :=
  fun w =>
    match c w with
    | (Normal a, w') => k a w'
    | (Throw e, w') => (Throw e, w')
    end.

Definition throw {A} (e : Exn) : Async A := fun w => (Throw e, w).

(** [try { body } catch { handler }]. *)
Definition try_catch {A} (body handler : Async A) : Async A :=
  fun w =>
    match body w with
    | (Normal a, w') => (Normal a, w')
    | (Throw _, w') => handler w'
    end.

(** [try { body } finally { final }]. *)
Definition try_finally {A} (body : Async A) (final : Async unit) : Async A :=
  fun w =>
    match body w with
    | (c, w') =>
        match final w' with
        | (Normal _, w'') => (c, w'')
        | (Throw e, w'') => (Throw e, w'')
        end
    end.

Declare Scope async_scope.
Delimit Scope async_scope with async.
Notation "x <- c ;; k" := (bind c (fun x => k))
  (at level 61, c at next level, right associativity) : async_scope.
Notation "c ;; k" := (bind c (fun _ => k))
  (at level 61, right associativity) : async_scope.
Open Scope async_scope.

Definition gets {A} (f : World -> A) : Async A := fun w => (Normal (f w), w).

Definition log (e : Event) : Async unit :=
  fun w => (Normal tt, set_trace (trace w ++ [e]) w).

(** Time passing while the code is suspended. *)
Definition advance (dt : Q) : Async unit :=
  fun w => (Normal tt, set_clock (clock w + dt)%Q w).

(** [performance.now()]. *)
Definition performance_now : Async Q := gets clock.

(** [Date.now()], as [withCacheBust] calls it: once for each request, just
    before the request is issued. *)
Definition Date_now : Async Z := gets (fun w => wall w (fetched w)).

Definition Math_random : Async JS.Double :=
  fun w => (Normal (random w (drawn w)), set_drawn (S (drawn w)) w).

(** [fetch(target, { method: "GET", mode: "no-cors", cache: "no-store",
    credentials: "omit" [, signal] })]: the request goes out; the promise
    returned stands for the request, by its number. *)
Definition fetch (target : URL) (cancellable : bool) : Async nat :=
  log (EvFetch target cancellable) ;;
  fun w => (Normal (fetched w), set_fetched (S (fetched w)) w).

(** The moment, counted from the start of the [k]-th request, at which the
    timer of [timeoutMs] set against it fires. *)
Definition fires (w : World) (timeoutMs : Z) (k : nat) : Q :=
  (inject_Z (JS.timer_delay timeoutMs) + JS.lateness (deadline_late w k))%Q.

(** Whether the [k]-th request settles before that timer fires. *)
Definition in_time (w : World) (timeoutMs : Z) (k : nat) : bool :=
  match net w k with
  | Fulfils t | Rejects t =>
      JS.Qltb t (fires w timeoutMs k)
      || (Qeq_bool t (fires w timeoutMs k) && request_first w k)
  | Hangs => false
  end.

(** [await Promise.race([request, wait(timeoutMs).then(() => { throw new
    Error("timeout"); })])]: the first promise to settle decides. *)
Definition await_race (request : nat) (timeoutMs : Z) : Async unit :=
  settle <- gets (fun w => net w request) ;;
  before <- gets (fun w => in_time w timeoutMs request) ;;
  timeout <- gets (fun w => fires w timeoutMs request) ;;
  match settle with
  | Fulfils t =>
      if before then advance t
      else advance timeout ;; throw TimeoutError
  | Rejects t =>
      if before then advance t ;; throw NetworkError
      else advance timeout ;; throw TimeoutError
  | Hangs => advance timeout ;; throw TimeoutError
  end.

(** [await request] while the timer [setTimeout(() => controller.abort(),
    timeoutMs)] is pending: when the timer fires first the request is
    aborted and its promise rejects. *)
Definition await_abortable (request : nat) (timeoutMs : Z) : Async unit :=
  settle <- gets (fun w => net w request) ;;
  before <- gets (fun w => in_time w timeoutMs request) ;;
  timeout <- gets (fun w => fires w timeoutMs request) ;;
  match settle with
  | Fulfils t =>
      if before then advance t
      else advance timeout ;; log EvAbort ;; throw AbortError
  | Rejects t =>
      if before then advance t ;; throw NetworkError
      else advance timeout ;; log EvAbort ;; throw AbortError
  | Hangs => advance timeout ;; log EvAbort ;; throw AbortError
  end.

(* ================================================================= *)
(** ** The ping-card code of [docs/script.js] *)

(** [const wait = (ms) => new Promise((resolve) =>
    window.setTimeout(resolve, ms))]: the call, which arms the timer. *)
Definition wait_call (ms : Z) : Async unit := log (EvWait ms).

(** [await wait(ms)]: the code resumes when the timer has fired. *)
Definition wait (ms : Z) : Async unit :=
  wait_call ms ;;
  late <- gets (fun w => pause_late w (List.length (trace w))) ;;
  advance (inject_Z (JS.timer_delay ms) + JS.lateness late).

Definition classList_remove (tokens classes : list string) : list string :=
  filter (fun c => negb (existsb (String.eqb c) tokens)) classes.

Definition classList_add (token : string) (classes : list string) : list string :=
  if existsb (String.eqb token) classes then classes else classes ++ [token].

(** [setPingState(card, state, valueText)]; the card is the one of the
    world. Nothing is written when either child element is missing. *)
Definition setPingState (state : PingState) (valueText : string) : Async unit :=
  log (EvSetPingState state valueText) ;;
  c <- gets card ;;
  match statusEl c, valueEl c with
  | Some classes, Some _ =>
      let classes :=
        classList_remove
          ["status--checking"; "status--up"; "status--warn"; "status--down"]%string
          classes in
      let classes := classList_add (state_class state) classes in
      fun w => (Normal tt,
                set_card {| pingUrl := pingUrl c;
                            statusEl := Some classes;
                            valueEl := Some valueText |} w)
  | _, _ => ret tt
  end.

(** [withCacheBust(rawUrl)]. *)
Definition withCacheBust (rawUrl : string) : Async URL :=
  resolved <- gets (fun w => URL_resolve w rawUrl) ;;
  match resolved with
  | None => throw TypeError
  | Some h =>
      now <- Date_now ;;
      ret {| href := h; _pv := Some (JS.toString now) |}
  end.

(** [probeRtt(url, timeoutMs)]. *)
Definition probeRtt (url : string) (timeoutMs : Z) : Async ProbeResult :=
  log (EvProbe url timeoutMs) ;;
  startedAt <- performance_now ;;
  abortable <- gets hasAbortController ;;
  if negb abortable then
    try_catch
      (target <- withCacheBust url ;;
       request <- fetch target false ;;
       wait_call timeoutMs ;;
       await_race request timeoutMs ;;
       now <- performance_now ;;
       ret (ProbeOk (JS.Math_round (JS.Double_sub now startedAt))))
      (ret ProbeFailed)
  else
    try_finally
      (try_catch
         (target <- withCacheBust url ;;
          request <- fetch target true ;;
          await_abortable request timeoutMs ;;
          now <- performance_now ;;
          ret (ProbeOk (JS.Math_round (JS.Double_sub now startedAt))))
         (ret ProbeFailed))
      (log EvClearTimeout).

(** The [for] loop of [measureRtt]. The body changes neither [i] (but for
    the increment) nor [samples], so the loop runs once for each integer of
    [[i, samples)]: [todo] is the number of them ([sampling_while] below is
    the loop with its test, and [sampling_while_enough] relates the two). *)
Fixpoint sampling (url : string) (samples : Z) (todo : nat) (i : Z)
    (successful : list Z) : Async (list Z) :=
  match todo with
  | O => ret successful
  | S todo' =>
      result <- probeRtt url 4200 ;;
      let successful :=
        match result with
        | ProbeOk r => successful ++ [r]
        | ProbeFailed => successful
        end in
      (if i <? samples - 1 then wait 180 else ret tt) ;;
      sampling url samples todo' (i + 1) successful
  end.

(** The same loop with its test [i < samples] written out, run with a
    bound on the number of iterations; [None] when the bound is reached
    before the test fails. *)
Fixpoint sampling_while (url : string) (samples : Z) (fuel : nat) (i : Z)
    (successful : list Z) : Async (option (list Z)) :=
  if i <? samples then
    match fuel with
    | O => ret None
    | S fuel' =>
        result <- probeRtt url 4200 ;;
        let successful :=
          match result with
          | ProbeOk r => successful ++ [r]
          | ProbeFailed => successful
          end in
        (if i <? samples - 1 then wait 180 else ret tt) ;;
        sampling_while url samples fuel' (i + 1) successful
    end
  else ret (Some successful).

(** The end of [measureRtt]: the reduction of the successful samples.
    [sort] works in place and returns the array it was called on, so that
    [successful] and [sorted] name one array afterwards. *)
Definition reduce (successful : list Z) (samples : Z) : AggregateResult :=
  match successful with
  | [] =>
      {| reachable := false; rtt := None; successful := 0; samples := samples |}
  | _ =>
      let sorted := JS.Array_sort (fun a b => a - b) successful in
      let median := JS.index sorted (Z.of_nat (List.length sorted) / 2) in
      {| reachable := true; rtt := median;
         successful := Z.of_nat (List.length sorted); samples := samples |}
  end.

(** [measureRtt(url, samples = 3)]. *)
Definition measureRtt (url : string) (samples : Z) : Async AggregateResult :=
  successful <- sampling url samples (Z.to_nat (samples - 0)) 0 [] ;;
  ret (reduce successful samples).

(** [randomWarnPing()]. *)
Definition randomWarnPing : Async Z :=
  u <- Math_random ;;
  ret (JS.Math_floor (JS.Double_mul u 11) + 150).

(** The handler after [measureRtt] has returned. The source compares with
    the literals [150] and [700]; they are the parameters [fast] and
    [slow] here. *)
Definition classify (fast slow : Z) (result : AggregateResult) : Async unit :=
  if negb (reachable result) then setPingState down "недоступен"
  else if JS.lt (rtt result) fast then
    setPingState up (JS.template (rtt result) ++ " мс")%string
  else if JS.le (rtt result) slow then
    v <- randomWarnPing ;;
    setPingState warn (JS.toString v ++ " мс")%string
  else setPingState down "недоступен".

(** The handler given to [pingCards.map], for the card of the world.
    [!pingUrl] holds of an absent attribute and of the empty string. *)
Definition pingCard_handler_with (fast slow : Z) : Async unit :=
  c <- gets card ;;
  match pingUrl c with
  | None => setPingState down "недоступен"
  | Some url =>
      if String.eqb url EmptyString then setPingState down "недоступен"
      else
        result <- measureRtt url 3 ;;
        classify fast slow result
  end.

Definition pingCard_handler : Async unit := pingCard_handler_with 150 700.

(* ================================================================= *)
(** ** Reading a trace *)

Definition is_probe (e : Event) : bool :=
  match e with EvProbe _ _ => true | _ => false end.

Definition is_fetch (e : Event) : bool :=
  match e with EvFetch _ _ => true | _ => false end.

(** The number of probe attempts, and of requests, recorded in a trace. *)
Definition probes (t : list Event) : nat := List.length (filter is_probe t).
Definition requests (t : list Event) : nat := List.length (filter is_fetch t).

(** The calls of [setPingState], oldest first. *)
Fixpoint renders (t : list Event) : list (PingState * string) :=
  match t with
  | [] => []
  | EvSetPingState s v :: t' => (s, v) :: renders t'
  | _ :: t' => renders t'
  end.

(** The status a trace ends on: the state of the last [setPingState]. *)
Definition terminal_status (t : list Event) : option PingState :=
  match rev (renders t) with
  | [] => None
  | (s, _) :: _ => Some s
  end.

(* ================================================================= *)
(** ** Reading a world: the outcomes it holds for a run *)

(** The result of a probe whose request is the [k]-th. The two clock
    readings differ by the time [t] the request took, and the code rounds
    their binary64 difference. *)
Definition outcome (w : World) (timeoutMs : Z) (k : nat) : ProbeResult :=
  match net w k with
  | Fulfils t =>
      if in_time w timeoutMs k then ProbeOk (JS.Math_round (JS.binary64 t))
      else ProbeFailed
  | Rejects _ | Hangs => ProbeFailed
  end.

(** The result of a probe of [url] whose request would be the [k]-th. *)
Definition attempt (w : World) (url : string) (timeoutMs : Z) (k : nat)
  : ProbeResult :=
  match URL_resolve w url with
  | None => ProbeFailed
  | Some _ => outcome w timeoutMs k
  end.

(** The results of the next [n] probes of [url], as [measureRtt] issues
    them. *)
Definition attempts (w : World) (url : string) (n : nat) : list ProbeResult :=
  map (attempt w url 4200) (seq (fetched w) n).

(** The round-trip times of the successful attempts, in order. *)
Fixpoint successes (l : list ProbeResult) : list Z :=
  match l with
  | [] => []
  | ProbeOk r :: l' => r :: successes l'
  | ProbeFailed :: l' => successes l'
  end.

(** The browser of [w'] is that of [w]: the same network, the same random
    source, the same timers and wall clock. *)
Definition same_browser (w w' : World) : Prop :=
  hasAbortController w' = hasAbortController w /\
  URL_resolve w' = URL_resolve w /\
  net w' = net w /\
  random w' = random w /\
  wall w' = wall w /\
  deadline_late w' = deadline_late w /\
  request_first w' = request_first w /\
  pause_late w' = pause_late w.

(** [w'] is [w] after the events [evs]: the browser is the same, the trace
    has grown by [evs] and one request was consumed for each [EvFetch]. *)
Definition after (w : World) (evs : list Event) (w' : World) : Prop :=
  same_browser w w' /\
  drawn w' = drawn w /\
  card w' = card w /\
  trace w' = trace w ++ evs /\
  fetched w' = (fetched w + requests evs)%nat.

(** The round-trip times [measureRtt url samples] collects in [w]. *)
Definition successful_samples (w : World) (url : string) (samples : Z) : list Z :=
  successes (attempts w url (Z.to_nat samples)).

(** The status on which a run of a handler ends. *)
Definition final_status (run : Completion unit * World) : option PingState :=
  terminal_status (trace (snd run)).

(** The state [classify] renders for an aggregate. *)
Definition verdict (fast slow : Z) (result : AggregateResult) : PingState :=
  if negb (reachable result) then down
  else if JS.lt (rtt result) fast then up
  else if JS.le (rtt result) slow then warn
  else down.

(** Worlds used as concrete inputs. *)
Definition page (abortable : bool) (network : nat -> Settle)
    (dice : JS.Double) (attribute : option string) : World :=
  {| hasAbortController := abortable;
     URL_resolve := fun raw => Some ("https://paketvpn.example/" ++ raw)%string;
     net := network;
     fetched := 0;
     random := fun _ => dice;
     drawn := 0;
     clock := 0;
     card := {| pingUrl := attribute;
                statusEl := Some ["status"; "status--checking"]%string;
                valueEl := Some "измеряем..."%string |};
     trace := [];
     wall := fun k => nth k [1767225600000; 1767225604380; 1767225608760] 0;
     deadline_late := fun _ => 0%Q;
     request_first := fun _ => false;
     pause_late := fun _ => 0%Q |}.

Definition settles (l : list Settle) (k : nat) : Settle := nth k l Hangs.

Definition half : JS.Double := {| JS.mantissa := 1; JS.scale := 1 |}.

(** Two requests answered after 100 ms and 300 ms. *)
Definition two_answers : World :=
  page true (settles [Fulfils (100 # 1); Fulfils (300 # 1)]) half (Some "ping"%string).

(** Three requests answered after 220 ms, 89.5 ms and 310 ms. *)
Definition three_answers : World :=
  page false (settles [Fulfils (220 # 1); Fulfils (179 # 2); Fulfils (310 # 1)])
    half (Some "ping"%string).

(** The same three round-trip times in a different browser: requests can
    be aborted, the first answer comes a little later and the random source
    differs. *)
Definition three_answers_again : World :=
  page true (settles [Fulfils (2202 # 10); Fulfils (90 # 1); Fulfils (310 # 1)])
    {| JS.mantissa := 3; JS.scale := 2 |} (Some "ping"%string).

(** One refusal, one answer after 400 ms, one request without answer. *)
Definition one_answer : World :=
  page true (settles [Rejects (12 # 1); Fulfils (400 # 1); Hangs]) half
    (Some "ping"%string).


(** A network that never answers. *)
Definition silence : World := page true (fun _ => Hangs) half (Some "ping"%string).

(** A card without [data-ping-url]. *)
Definition unconfigured : World := page true (fun _ => Hangs) half None.

Definition aggregate_of (r : Z) : AggregateResult :=
  {| reachable := true; rtt := Some r; successful := 3; samples := 3 |}.

(* ================================================================= *)
(** ** The rest of the ping-card block *)

(** What the block under [if (pingCards.length)] does to one card: the
    [forEach] pass renders it [checking], then the handler given to
    [pingCards.map] runs for it. *)
Definition pingCard_lifecycle : Async unit :=
  setPingState checking "измеряем..." ;;
  pingCard_handler.

(** The four classes [setPingState] removes. *)
Definition status_classes : list string :=
  ["status--checking"; "status--up"; "status--warn"; "status--down"]%string.

Definition is_wait (e : Event) : bool :=
  match e with EvWait _ => true | _ => false end.

Definition is_abort (e : Event) : bool :=
  match e with EvAbort => true | _ => false end.

Definition is_clearTimeout (e : Event) : bool :=
  match e with EvClearTimeout => true | _ => false end.

(** The pauses between two attempts: the calls [wait(180)]. *)
Definition is_pause (e : Event) : bool :=
  match e with EvWait ms => ms =? 180 | _ => false end.

(** The probe attempts and the calls of [wait] of a trace, in order. *)
Definition pacing (t : list Event) : list Event :=
  filter (fun e => is_probe e || is_wait e) t.

(** Whether a probe of [url] calls [wait] for its timer: it does on the
    [Promise.race] path, once the url is parsed and the request issued. *)
Definition races (w : World) (url : string) : bool :=
  negb (hasAbortController w) &&
  match URL_resolve w url with Some _ => true | None => false end.

(** One probe of [measureRtt], with its call of [wait] when it makes one. *)
Definition probe_slot (url : string) (racing : bool) : list Event :=
  EvProbe url 4200 :: (if racing then [EvWait 4200] else []).

(** [n] probes of [url] with a pause of 180 ms between two of them. *)
Fixpoint schedule (url : string) (racing : bool) (n : nat) : list Event :=
  match n with
  | O => []
  | S O => probe_slot url racing
  | S n' => probe_slot url racing ++ EvWait 180 :: schedule url racing n'
  end.

(** The cache-busting parameters of the requests of a trace, in order. *)
Fixpoint stamps (t : list Event) : list (option string) :=
  match t with
  | [] => []
  | EvFetch target _ :: t' => _pv target :: stamps t'
  | _ :: t' => stamps t'
  end.

(** The cache-busting parameter of the [k]-th request: the decimal form of
    what [Date.now()] reads when the request is prepared. *)
Definition stamp (w : World) (k : nat) : option string :=
  Some (JS.toString (wall w k)).

(** No request of the world settles at a negative time. *)
Definition causal (w : World) : Prop :=
  forall k t, net w k = Fulfils t \/ net w k = Rejects t -> (0 <= t)%Q.

(** The time a probe of [url] takes in [w]. *)
Definition probe_duration (w : World) (url : string) (timeoutMs : Z) : Q :=
  match URL_resolve w url with
  | None => 0
  | Some _ =>
      match net w (fetched w) with
      | Fulfils t | Rejects t =>
          if in_time w timeoutMs (fetched w) then t
          else fires w timeoutMs (fetched w)
      | Hangs => fires w timeoutMs (fetched w)
      end
  end.

(** The events of a probe of [url] in [w]. *)
Definition probe_events (w : World) (url : string) (timeoutMs : Z) : list Event :=
  (EvProbe url timeoutMs ::
   match URL_resolve w url with
   | None => []
   | Some h =>
       EvFetch {| href := h; _pv := Some (JS.toString (wall w (fetched w))) |}
         (hasAbortController w)
       :: (if hasAbortController w
           then if in_time w timeoutMs (fetched w) then [] else [EvAbort]
           else [EvWait timeoutMs])
   end)
  ++ (if hasAbortController w then [EvClearTimeout] else []).

(** The number of elements of [l] that satisfy [p]. *)
Definition count (p : Z -> bool) (l : list Z) : nat := List.length (filter p l).

(* ================================================================= *)
(** ** The typewriter of [docs/script.js] *)

Module Typewriter.

(** Strings are sequences of UTF-16 code units in JavaScript. The words of
    the page are Cyrillic: every letter is one code unit, written here as
    the bytes of its UTF-8 encoding. [units] cuts a string before every
    byte that is not a continuation byte. *)
Definition continuation (c : Ascii.ascii) : bool :=
  (128 <=? Ascii.nat_of_ascii c)%nat && (Ascii.nat_of_ascii c <? 192)%nat.

Fixpoint split_units (s : string) : string * list string :=
  match s with
  | EmptyString => (EmptyString, [])
  | String c rest =>
      let (pending, us) := split_units rest in
      if continuation c then (String c pending, us)
      else (EmptyString, String c pending :: us)
  end.

Definition units (s : string) : list string := snd (split_units s).

Definition words : list (list string) :=
  map units
    ["свободному"; "безопасному"; "быстрому"; "стабильному"; "приватному";
     "надежному"; "защищенному"; "открытому"; "комфортному"]%string.

(** [l[i]]: [undefined] out of range. *)
Definition at_index {A : Type} (l : list A) (i : Z) : option A :=
  if i <? 0 then None else nth_error l (Z.to_nat i).

(** [s.slice(0, e)]: a negative [e] counts from the end, and the result
    stops at the end of [s]. *)
Definition slice0 (s : list string) (e : Z) : list string :=
  let len := Z.of_nat (List.length s) in
  let stop := if e <? 0 then Z.max (len + e) 0 else Z.min e len in
  firstn (Z.to_nat stop) s.

(** The variables [step] closes over, and the text of the element. *)
Record State : Type := {
  wordIndex : Z;
  charIndex : Z;
  deleting : bool;
  textContent : list string
}.

(** The state when the first timer is set: [wordIndex = 0],
    [charIndex = words[0].length], [deleting = false]; [None] when
    [words[0]] is [undefined] and [.length] throws. *)
Definition start (ws : list (list string)) (shown : list string) : option State :=
  match at_index ws 0 with
  | None => None
  | Some first =>
      Some {| wordIndex := 0; charIndex := Z.of_nat (List.length first);
              deleting := false; textContent := shown |}
  end.

(** One call of [step], over the list [ws] of words: the new state and the
    delay given to [window.setTimeout]; [None] when [words[wordIndex]] is
    [undefined] and [current.slice] throws. [%] is the remainder of the
    truncated division. *)
Definition step (ws : list (list string)) (t : State) : option (State * Z) :=
  match at_index ws (wordIndex t) with
  | None => None
  | Some current =>
      let text := slice0 current (charIndex t) in
      let delay := if deleting t then 40 else 62 in
      let length := Z.of_nat (List.length current) in
      if negb (deleting t) && (charIndex t <? length) then
        Some ({| wordIndex := wordIndex t; charIndex := charIndex t + 1;
                 deleting := deleting t; textContent := text |}, delay)
      else if negb (deleting t) && (length <=? charIndex t) then
        Some ({| wordIndex := wordIndex t; charIndex := charIndex t;
                 deleting := true; textContent := text |}, 2400)
      else if deleting t && (0 <? charIndex t) then
        Some ({| wordIndex := wordIndex t; charIndex := charIndex t - 1;
                 deleting := deleting t; textContent := text |}, 36)
      else
        Some ({| wordIndex := Z.rem (wordIndex t + 1) (Z.of_nat (List.length ws));
                 charIndex := charIndex t;
                 deleting := false; textContent := text |}, 360)
  end.

(** [n] calls of [step], each set off by the timer of the one before: the
    state reached and the sum of the delays. *)
Fixpoint run (ws : list (list string)) (n : nat) (t : State) : option (State * Z) :=
  match n with
  | O => Some (t, 0)
  | S n' =>
      match step ws t with
      | None => None
      | Some (t1, d) =>
          match run ws n' t1 with
          | None => None
          | Some (t2, d') => Some (t2, d + d')
          end
      end
  end.

(** The variables are in range: the word exists and [charIndex] is a
    position of it. *)
Definition in_range (ws : list (list string)) (t : State) : Prop :=
  exists current,
    at_index ws (wordIndex t) = Some current /\
    0 <= charIndex t <= Z.of_nat (List.length current).

(** The length of the word of index [i]. *)
Definition word_length (ws : list (list string)) (i : Z) : Z :=
  match at_index ws i with
  | Some current => Z.of_nat (List.length current)
  | None => 0
  end.

(** The word of index [i]. *)
Definition word (ws : list (list string)) (i : Z) : list string :=
  match at_index ws i with
  | Some current => current
  | None => []
  end.

(** The texts the element shows in the course of [n] calls of [step], one
    for each call. *)
Fixpoint shows (ws : list (list string)) (n : nat) (t : State)
  : list (list string) :=
  match n with
  | O => []
  | S n' =>
      match step ws t with
      | None => []
      | Some (t1, _) => textContent t1 :: shows ws n' t1
      end
  end.

(** The word of index [i] is on display, whole, and the pause before its
    erasure has begun. *)
Definition held (ws : list (list string)) (i : Z) : State :=
  {| wordIndex := i; charIndex := word_length ws i; deleting := true;
     textContent := word ws i |}.

(** The index after [i], as [step] computes it. *)
Definition next (ws : list (list string)) (i : Z) : Z :=
  Z.rem (i + 1) (Z.of_nat (List.length ws)).

(** The prefixes of a word, from the whole word down to the empty text,
    and from the empty text up to the whole word. *)
Definition prefixes_down (w : list string) : list (list string) :=
  map (fun k => firstn k w) (rev (seq 0 (S (List.length w)))).

Definition prefixes_up (w : list string) : list (list string) :=
  map (fun k => firstn k w) (seq 0 (S (List.length w))).

(** From the word of index [i] held to the next word held: the number of
    calls of [step], the sum of their delays, the texts shown. *)
Definition lap (ws : list (list string)) (i : Z) : nat :=
  Z.to_nat (word_length ws i + word_length ws (next ws i) + 2).

Definition lap_delay (ws : list (list string)) (i : Z) : Z :=
  36 * word_length ws i + 360 + 62 * word_length ws (next ws i) + 2400.

Definition lap_texts (ws : list (list string)) (i : Z) : list (list string) :=
  prefixes_down (word ws i) ++ prefixes_up (word ws (next ws i)).

(** The index of the [k]-th word to be held, counting from zero. *)
Definition turn (ws : list (list string)) (k : nat) : Z :=
  Z.of_nat k mod Z.of_nat (List.length ws).

(** From the start to the [k]-th word held: the number of calls of
    [step], the sum of their delays, the texts shown. *)
Fixpoint steps_to (ws : list (list string)) (k : nat) : nat :=
  match k with
  | O => 1
  | S k' => steps_to ws k' + lap ws (turn ws k')
  end.

Fixpoint delay_to (ws : list (list string)) (k : nat) : Z :=
  match k with
  | O => 2400
  | S k' => delay_to ws k' + lap_delay ws (turn ws k')
  end.

Fixpoint texts_to (ws : list (list string)) (k : nat) : list (list string) :=
  match k with
  | O => [word ws 0]
  | S k' => texts_to ws k' ++ lap_texts ws (turn ws k')
  end.

End Typewriter.

(* ================================================================= *)
(** ** [project/site/script.js] *)

Module Site.

(** [classList.toggle(token, force)]. *)
Definition classList_toggle (token : string) (force : bool)
    (classes : list string) : list string :=
  if force then classList_add token classes
  else classList_remove [token] classes.

(** [handleScroll()]: [nav] is the class list of the [.nav] element, [None]
    when the page has none. *)
Definition handleScroll (nav : option (list string)) (scrollY : Q)
  : option (list string) :=
  match nav with
  | None => None
  | Some classes =>
      Some (classList_toggle "nav--floating" (JS.Qltb (12 # 1) scrollY) classes)
  end.

(** [handleFaqToggle(current)] over the [open] attributes of [faqItems];
    an item is known by its position. *)
Fixpoint close_others (current position : nat) (faqItems : list bool) : list bool :=
  match faqItems with
  | [] => []
  | open :: rest =>
      (if Nat.eqb position current then open else false)
        :: close_others current (S position) rest
  end.

Definition handleFaqToggle (current : nat) (faqItems : list bool) : list bool :=
  close_others current 0 faqItems.

(** The [toggle] listener of the item at position [item]. *)
Definition on_toggle (item : nat) (faqItems : list bool) : list bool :=
  if nth item faqItems false then handleFaqToggle item faqItems else faqItems.

(** The number of open items. *)
Definition open_items (faqItems : list bool) : nat :=
  List.length (filter (fun open => open) faqItems).

End Site.

(* ================================================================= *)
(** ** The reveal animation of [docs/script.js] *)

Module Reveal.

(** A [data-reveal] element: its class list and the [transitionDelay] of
    its style, in milliseconds ([None]: not set). *)
Record Item : Type := { classes : list string; transitionDelay : option Z }.

(** The elements, in document order, and the positions of those the
    observer watches. *)
Record Page : Type := { items : list Item; observed : list nat }.

(** [item.classList.add(token)]. *)
Definition add_class (token : string) (item : Item) : Item :=
  {| classes := classList_add token (classes item);
     transitionDelay := transitionDelay item |}.

(** [item.classList.contains("in-view")]. *)
Definition in_view (item : Item) : bool :=
  existsb (String.eqb "in-view") (classes item).

(** [showAll()]. *)
Definition showAll (l : list Item) : list Item := map (add_class "in-view") l.

(** The body of [items.forEach((item, index) => ...)] that readies an item:
    the class [reveal-ready] and a delay of [Math.min(index * 70, 280)]
    ms. *)
Definition prepare (index : nat) (item : Item) : Item :=
  {| classes := classList_add "reveal-ready" (classes item);
     transitionDelay := Some (Z.min (Z.of_nat index * 70) 280) |}.

Fixpoint forEach_indexed (f : nat -> Item -> Item) (index : nat) (l : list Item)
  : list Item :=
  match l with
  | [] => []
  | item :: l' => f index item :: forEach_indexed f (S index) l'
  end.

(** The block under [if (items.length)], up to the timer of the fallback:
    [hasObserver] is ["IntersectionObserver" in window]. *)
Definition setup (prefersReduced hasObserver : bool) (l : list Item) : Page :=
  match l with
  | [] => {| items := l; observed := [] |}
  | _ =>
      if prefersReduced || negb hasObserver then
        {| items := showAll l; observed := [] |}
      else
        {| items := forEach_indexed prepare 0 l;
           observed := seq 0 (List.length l) |}
  end.

Fixpoint update (position : nat) (f : Item -> Item) (l : list Item) : list Item :=
  match l, position with
  | [], _ => []
  | item :: l', O => f item :: l'
  | item :: l', S position' => item :: update position' f l'
  end.

(** The body of [entries.forEach] in the observer's callback; an entry is
    the position of its target and [isIntersecting]. *)
Definition on_entry (p : Page) (entry : nat * bool) : Page :=
  if negb (snd entry) then p
  else {| items := update (fst entry) (add_class "in-view") (items p);
          observed := List.remove Nat.eq_dec (fst entry) (observed p) |}.

(** The callback given to [new IntersectionObserver]. *)
Definition callback (entries : list (nat * bool)) (p : Page) : Page :=
  fold_left on_entry entries p.

(** The literal [0.92] as a binary64 number. *)
Definition ninety_two_percent : JS.Double :=
  {| JS.mantissa := 8286623314361713; JS.scale := 53 |}.

Definition to_Q (d : JS.Double) : Q :=
  Qmake (JS.mantissa d) (Z.to_pos (2 ^ JS.scale d)).

(** What [getBoundingClientRect()] gives for an item. *)
Record Rect : Type := { top : Q; bottom : Q }.

(** [rect.top < window.innerHeight * 0.92 && rect.bottom > 0]. *)
Definition near_viewport (innerHeight : Z) (rect : Rect) : bool :=
  JS.Qltb (top rect) (to_Q (JS.Double_mul ninety_two_percent innerHeight))
  && JS.Qltb 0 (bottom rect).

(** The body of [items.forEach] in the fallback. *)
Definition rescue (innerHeight : Z) (item : Item) (rect : Rect) : Item :=
  if in_view item then item
  else if near_viewport innerHeight rect then add_class "in-view" item
  else item.

Fixpoint rescue_all (innerHeight : Z) (l : list Item) (rects : list Rect)
  : list Item :=
  match l, rects with
  | item :: l', rect :: rects' =>
      rescue innerHeight item rect :: rescue_all innerHeight l' rects'
  | _, _ => l
  end.

(** The fallback run by the timer, 220 ms after the setup; [rects] holds
    the rectangle of every item at that time. *)
Definition fallback (innerHeight : Z) (rects : list Rect) (p : Page) : Page :=
  {| items := rescue_all innerHeight (items p) rects; observed := observed p |}.

(** [after] is [before], but for the class [in-view] it may have gained. *)
Definition only_revealed (before after : Item) : Prop :=
  transitionDelay after = transitionDelay before /\
  (forall c, In c (classes before) -> In c (classes after)) /\
  (forall c, In c (classes after) ->
             c = "in-view"%string \/ In c (classes before)).

End Reveal.

(* ================================================================= *)
(** ** The runtime fragments *)

Section Sorting.

Let by_value (a b : Z) : Z := a - b.

Lemma insert_perm (x : Z) (l : list Z) :
  Permutation (JS.insert by_value x l) (x :: l).
Proof.
  induction l as [|y l IH]; simpl; [reflexivity|].
  destruct (by_value x y <? 0); [reflexivity|].
  rewrite IH. apply perm_swap.
Qed.

Lemma insert_sorted (x : Z) (l : list Z) :
  StronglySorted Z.le l -> StronglySorted Z.le (JS.insert by_value x l).
Proof.
  induction 1 as [|y l Hs IH Hy]; simpl.
  - repeat constructor.
  - destruct (Z.ltb_spec (by_value x y) 0) as [Hlt|Hge]; unfold by_value in *.
    + constructor; [now constructor|].
      constructor; [lia|].
      eapply Forall_impl; [|exact Hy]. intros z Hz; simpl in Hz; lia.
    + constructor; [exact IH|].
      eapply Permutation_Forall; [symmetry; apply insert_perm|].
      constructor; [lia | exact Hy].
Qed.

Lemma sort_from (l acc : list Z) :
  StronglySorted Z.le acc ->
  StronglySorted Z.le (fold_left (fun a x => JS.insert by_value x a) l acc) /\
  Permutation (fold_left (fun a x => JS.insert by_value x a) l acc) (l ++ acc).
Proof.
  revert acc; induction l as [|x l IH]; intros acc Hacc; simpl.
  - split; [exact Hacc | reflexivity].
  - destruct (IH _ (insert_sorted x acc Hacc)) as [Hs Hp].
    split; [exact Hs|].
    rewrite Hp, insert_perm. symmetry; apply Permutation_middle.
Qed.

Lemma Array_sort_sorted (l : list Z) :
  StronglySorted Z.le (JS.Array_sort (fun a b => a - b) l).
Proof. apply (sort_from l []); constructor. Qed.

Lemma Array_sort_perm (l : list Z) :
  Permutation (JS.Array_sort (fun a b => a - b) l) l.
Proof.
  destruct (sort_from l [] (SSorted_nil _)) as [_ Hp].
  unfold JS.Array_sort. fold by_value. rewrite Hp, app_nil_r. reflexivity.
Qed.

Lemma Array_sort_length (l : list Z) :
  List.length (JS.Array_sort (fun a b => a - b) l) = List.length l.
Proof. apply Permutation_length, Array_sort_perm. Qed.

End Sorting.

Lemma sorted_suffix (l1 l2 : list Z) :
  StronglySorted Z.le (l1 ++ l2) -> StronglySorted Z.le l2.
Proof.
  induction l1 as [|x l1 IH]; simpl; [trivial|].
  intros H. inversion H; subst. now apply IH.
Qed.

Lemma index_in_range (l : list Z) (i : Z) :
  0 <= i < Z.of_nat (List.length l) ->
  exists x, JS.index l i = Some x /\ nth_error l (Z.to_nat i) = Some x.
Proof.
  intros Hi. unfold JS.index.
  destruct (Z.ltb_spec i 0) as [?|_]; [lia|].
  destruct (nth_error l (Z.to_nat i)) as [x|] eqn:E; [now exists x|].
  apply nth_error_None in E. lia.
Qed.

Lemma half_length (n : nat) :
  Z.to_nat (Z.of_nat n / 2) = (n / 2)%nat.
Proof.
  rewrite <- (Nat2Z.id (n / 2)). f_equal.
  now rewrite Nat2Z.inj_div.
Qed.

Lemma Math_round_nearest (x : Q) :
  (inject_Z (JS.Math_round x) - (1 # 2) <= x)%Q /\
  (x < inject_Z (JS.Math_round x) + (1 # 2))%Q.
Proof.
  unfold JS.Math_round.
  pose proof (Qfloor_le (x + (1 # 2))) as Hlo.
  pose proof (Qlt_floor (x + (1 # 2))) as Hhi.
  rewrite inject_Z_plus in Hhi.
  split.
  - apply Qplus_le_l with (z := (1 # 2)%Q). ring_simplify. 
    setoid_replace (inject_Z (Qfloor (x + (1 # 2)))) with
      (inject_Z (Qfloor (x + (1 # 2))) + 0)%Q in Hlo by ring.
    ring_simplify in Hlo. exact Hlo.
  - apply Qplus_lt_l with (z := (1 # 2)%Q).
    setoid_replace (inject_Z (Qfloor (x + (1 # 2))) + (1 # 2) + (1 # 2))%Q
      with (inject_Z (Qfloor (x + (1 # 2))) + inject_Z 1)%Q by ring.
    exact Hhi.
Qed.

Lemma Qltb_lt (x y : Q) : JS.Qltb x y = true <-> (x < y)%Q.
Proof.
  unfold JS.Qltb. rewrite negb_true_iff.
  split.
  - intros H. apply Qnot_le_lt. intros Hle.
    apply Qle_bool_iff in Hle. congruence.
  - intros H. destruct (Qle_bool y x) eqn:E; [|reflexivity].
    apply Qle_bool_iff in E. exfalso. now apply (Qlt_not_le x y).
Qed.


Lemma nearest_even_nonneg (num den : Z) :
  0 <= num -> 0 < den -> 0 <= JS.nearest_even num den.
Proof.
  intros Hn Hd. unfold JS.nearest_even.
  assert (0 <= num / den) by (apply Z.div_pos; lia).
  destruct (_ || _); lia.
Qed.

Lemma binary64_pos_nonneg (n d : Z) :
  0 < n -> 0 < d -> (0 <= JS.binary64_pos n d)%Q.
Proof.
  intros Hn Hd. unfold JS.binary64_pos.
  set (e := Z.max (JS.floor_log2 n d - 52) (-1074)).
  destruct (Z.leb_spec 0 e) as [He|He].
  - assert (0 < 2 ^ e) by (apply Z.pow_pos_nonneg; lia).
    assert (0 <= JS.nearest_even n (d * 2 ^ e))
      by (apply nearest_even_nonneg; nia).
    unfold Qle; simpl. nia.
  - assert (0 < 2 ^ (- e)) by (apply Z.pow_pos_nonneg; lia).
    assert (0 <= JS.nearest_even (n * 2 ^ (- e)) d)
      by (apply nearest_even_nonneg; nia).
    unfold Qle; simpl. lia.
Qed.

(** Rounding to binary64 keeps the sign. *)
Lemma binary64_nonneg (x : Q) : (0 <= x)%Q -> (0 <= JS.binary64 x)%Q.
Proof.
  intros Hx. unfold JS.binary64.
  assert (Hred : (0 <= Qred x)%Q) by now rewrite Qred_correct.
  destruct (Qred x) as [n d]. simpl.
  destruct n as [|n|n].
  - apply Qle_refl.
  - apply binary64_pos_nonneg; reflexivity.
  - unfold Qle in Hred; simpl in Hred. lia.
Qed.

Lemma long_in_range (ms : Z) : - 2 ^ 31 <= ms < 2 ^ 31 -> JS.long ms = ms.
Proof.
  intros H. unfold JS.long.
  rewrite Z.mod_small; lia.
Qed.

(** Within the range of [long] a timer is armed with the delay asked
    for, and with none when the delay is [2 ^ 31]. *)
Lemma timer_delay_in_range (ms : Z) : 0 <= ms < 2 ^ 31 -> JS.timer_delay ms = ms.
Proof.
  intros H. unfold JS.timer_delay. rewrite long_in_range; lia.
Qed.

Lemma timer_delay_nonneg (ms : Z) : 0 <= JS.timer_delay ms.
Proof. unfold JS.timer_delay. lia. Qed.

Lemma lateness_nonneg (l : Q) : (0 <= JS.lateness l)%Q.
Proof.
  unfold JS.lateness. destruct (Qle_bool 0 l) eqn:E.
  - now apply Qle_bool_iff.
  - apply Qle_refl.
Qed.

(** Rounding to 53 bits moves a product of less than 57 bits by at most 8. *)
Lemma round53_near (p : Z) :
  0 <= p < 2 ^ 57 -> 0 <= JS.round53 p <= p + 8.
Proof.
  intros [Hp0 Hp]. unfold JS.round53.
  destruct (Z.ltb_spec p (2 ^ 53)) as [Hsmall|Hbig]; [lia|].
  assert (Hpos : 0 < p) by lia.
  assert (Hlo : 53 <= Z.log2 p) by (apply Z.log2_le_pow2; lia).
  assert (Hhi : Z.log2 p < 57) by (apply Z.log2_lt_pow2; lia).
  set (s := Z.log2 p - 52).
  assert (Hs : 1 <= s <= 4) by lia.
  clearbody s.
  assert (Hd : 2 ^ s = 2 * 2 ^ (s - 1)).
  { rewrite <- Z.pow_succ_r by lia. f_equal; lia. }
  assert (Hh : 1 <= 2 ^ (s - 1) <= 8).
  { split.
    - apply (Z.pow_le_mono_r 2 0 (s - 1)); lia.
    - apply (Z.pow_le_mono_r 2 (s - 1) 3); lia. }
  set (h := 2 ^ (s - 1)) in *. rewrite Hd. clearbody h.
  pose proof (Z.div_mod p (2 * h) ltac:(lia)) as Hdm.
  pose proof (Z.mod_pos_bound p (2 * h) ltac:(lia)) as Hr.
  assert (Hq : 0 <= p / (2 * h)) by (apply Z.div_pos; lia).
  set (q := p / (2 * h)) in *. set (r := p mod (2 * h)) in *.
  clearbody q r.
  destruct ((h <? r) || ((r =? h) && Z.odd q)) eqn:Hup.
  - assert (h <= r).
    { apply orb_true_iff in Hup. destruct Hup as [Hup|Hup].
      - apply Z.ltb_lt in Hup; lia.
      - apply andb_true_iff in Hup. destruct Hup as [Hup _].
        apply Z.eqb_eq in Hup; lia. }
    nia.
  - nia.
Qed.

Lemma randomWarnPing_band (u : JS.Double) :
  JS.in_unit_interval u = true ->
  150 <= JS.Math_floor (JS.Double_mul u 11) + 150 <= 160.
Proof.
  unfold JS.in_unit_interval. rewrite !andb_true_iff.
  intros [[[Hm0 Hm53] Hs0] Hms].
  apply Z.leb_le in Hm0, Hs0. apply Z.ltb_lt in Hm53, Hms.
  unfold JS.Math_floor, JS.Double_mul; simpl.
  assert (Hpow : 0 < 2 ^ JS.scale u) by (apply Z.pow_pos_nonneg; lia).
  destruct (round53_near (JS.mantissa u * 11)) as [Hr0 Hr8]; [lia|].
  assert (0 <= JS.round53 (JS.mantissa u * 11) / 2 ^ JS.scale u)
    by (apply Z.div_pos; lia).
  assert (JS.round53 (JS.mantissa u * 11) / 2 ^ JS.scale u < 11)
    by (apply Z.div_lt_upper_bound; lia).
  lia.
Qed.

(** Both ends of the band are reached: by the smallest and by the largest
    value [Math.random()] can return. *)
Lemma randomWarnPing_band_ends :
  JS.Math_floor (JS.Double_mul {| JS.mantissa := 0; JS.scale := 0 |} 11) + 150
  = 150 /\
  JS.Math_floor
    (JS.Double_mul {| JS.mantissa := 2 ^ 53 - 1; JS.scale := 53 |} 11) + 150
  = 160.
Proof. split; vm_compute; reflexivity. Qed.

(* ================================================================= *)
(** ** Traces *)

Lemma probes_app (a b : list Event) : probes (a ++ b) = (probes a + probes b)%nat.
Proof. unfold probes. now rewrite filter_app, length_app. Qed.

Lemma requests_app (a b : list Event) :
  requests (a ++ b) = (requests a + requests b)%nat.
Proof. unfold requests. now rewrite filter_app, length_app. Qed.

Lemma renders_app (a b : list Event) : renders (a ++ b) = renders a ++ renders b.
Proof.
  induction a as [|e a IH]; simpl; [reflexivity|].
  destruct e; simpl; now rewrite IH.
Qed.

Lemma terminal_status_snoc (t : list Event) (s : PingState) (v : string) :
  terminal_status (t ++ [EvSetPingState s v]) = Some s.
Proof.
  unfold terminal_status. rewrite renders_app; simpl.
  now rewrite rev_app_distr.
Qed.

Lemma same_browser_refl (w : World) : same_browser w w.
Proof. unfold same_browser. tauto. Qed.

Lemma same_browser_trans (w w1 w2 : World) :
  same_browser w w1 -> same_browser w1 w2 -> same_browser w w2.
Proof.
  unfold same_browser.
  intros (A1 & A2 & A3 & A4 & A5 & A6 & A7 & A8)
         (B1 & B2 & B3 & B4 & B5 & B6 & B7 & B8).
  repeat split; congruence.
Qed.

Lemma after_refl (w : World) : after w [] w.
Proof.
  unfold after. rewrite app_nil_r. unfold requests; simpl.
  rewrite Nat.add_0_r. pose proof (same_browser_refl w). tauto.
Qed.

Lemma after_trans (w w1 w2 : World) (e1 e2 : list Event) :
  after w e1 w1 -> after w1 e2 w2 -> after w (e1 ++ e2) w2.
Proof.
  unfold after.
  intros (A0 & A5 & A6 & A7 & A8) (B0 & B5 & B6 & B7 & B8).
  rewrite requests_app, app_assoc.
  split; [exact (same_browser_trans _ _ _ A0 B0)|].
  repeat split; try congruence.
  rewrite B8, A8. apply eq_sym, Nat.add_assoc.
Qed.

(** What a world holds for a request depends on the browser alone. *)
Lemma in_time_same (w w' : World) (timeoutMs : Z) (k : nat) :
  same_browser w w' -> in_time w' timeoutMs k = in_time w timeoutMs k.
Proof.
  intros (_ & _ & HN & _ & _ & HL & HF & _).
  unfold in_time, fires. now rewrite HN, HL, HF.
Qed.

Lemma after_browser (w w' : World) (evs : list Event) :
  after w evs w' -> same_browser w w'.
Proof. now intros (H & _). Qed.

(* ================================================================= *)
(** ** The probe *)

Ltac run_async :=
  unfold probeRtt, withCacheBust, fetch, await_race, await_abortable, wait,
    wait_call, setPingState, randomWarnPing, Math_random, performance_now,
    Date_now, try_finally, try_catch, bind, ret, throw, gets, log, advance in *.

Lemma elapsed_round (c t : Q) :
  JS.Math_round (JS.Double_sub (c + t) c) = JS.Math_round (JS.binary64 t).
Proof.
  unfold JS.Double_sub, JS.binary64.
  replace (Qred (c + t - c)) with (Qred t); [reflexivity|].
  apply Qred_complete. ring.
Qed.

Ltac step_in E :=
  cbn -[JS.Math_round JS.Double_sub JS.binary64 Qplus Qminus JS.Qltb Qeq_bool
        JS.lateness JS.timer_delay inject_Z Qfloor JS.toString orb andb] in E.

Ltac step_goal :=
  cbn -[JS.Math_round JS.Double_sub JS.binary64 Qplus Qminus JS.Qltb Qeq_bool
        JS.lateness JS.timer_delay inject_Z Qfloor JS.toString orb andb].

(** A probe returns normally, with the result its request's behaviour
    decides, after one [EvProbe] and at most one request. *)
Lemma probeRtt_run (url : string) (timeoutMs : Z) (w : World) :
  exists w' evs,
    probeRtt url timeoutMs w
      = (Normal (attempt w url timeoutMs (fetched w)), w') /\
    after w evs w' /\
    probes evs = 1%nat /\ renders evs = [] /\
    requests evs = (match URL_resolve w url with Some _ => 1 | None => 0 end)%nat.
Proof.
  destruct (probeRtt url timeoutMs w) as [c w'] eqn:E.
  exists w'. unfold attempt, outcome, after, same_browser.
  run_async. unfold in_time, fires in *. step_in E.
  destruct (hasAbortController w) eqn:HA; step_in E;
    (destruct (URL_resolve w url) as [h|]; step_in E;
     [destruct (net w (fetched w)) as [t|t|]; step_in E;
      try (destruct (JS.Qltb t _ || _); step_in E)|]);
    inversion E; subst; clear E; step_goal;
    rewrite <- ?app_assoc; rewrite ?elapsed_round;
    (eexists; split; [reflexivity|]);
    unfold probes, requests; rewrite ?HA;
    repeat split; try reflexivity; cbn; lia.
Qed.





(* ================================================================= *)
(** ** The sampler *)

(** The loop with its test ends by the test, within [samples - i]
    iterations, and does what [sampling] does. *)
Lemma sampling_while_enough (url : string) (samples : Z) (fuel : nat) :
  forall (i : Z) (acc : list Z) (w : World),
    (Z.to_nat (samples - i) <= fuel)%nat ->
    sampling_while url samples fuel i acc w
    = match sampling url samples (Z.to_nat (samples - i)) i acc w with
      | (Normal l, w') => (Normal (Some l), w')
      | (Throw e, w') => (Throw e, w')
      end.
Proof.
  induction fuel as [|fuel IH]; intros i acc w Hfuel.
  - replace (Z.to_nat (samples - i)) with 0%nat by lia. simpl.
    destruct (Z.ltb_spec i samples); [lia | reflexivity].
  - simpl. destruct (Z.ltb_spec i samples) as [Hlt|Hge].
    + destruct (Z.to_nat (samples - i)) as [|todo] eqn:Htodo; [lia|].
      simpl. unfold bind.
      destruct (probeRtt url 4200 w) as [[result|e] w1]; [|reflexivity].
      destruct ((if i <? samples - 1 then wait 180 else ret tt) w1)
        as [[[]|e] w2]; [|reflexivity].
      replace todo with (Z.to_nat (samples - (i + 1))) by lia.
      apply IH. lia.
    + replace (Z.to_nat (samples - i)) with 0%nat by lia. reflexivity.
Qed.

Lemma failed_everywhere (a b n : nat) :
  map (fun _ : nat => ProbeFailed) (seq a n)
  = map (fun _ : nat => ProbeFailed) (seq b n).
Proof.
  revert a b; induction n as [|n IH]; intros a b; simpl; [reflexivity|].
  f_equal. apply IH.
Qed.

Lemma attempts_step (w w' : World) (evs : list Event) (url : string) (n : nat) :
  after w evs w' ->
  requests evs = (match URL_resolve w url with Some _ => 1 | None => 0 end)%nat ->
  attempts w url (S n) = attempt w url 4200 (fetched w) :: attempts w' url n.
Proof.
  intros ((_ & HU & HN & _ & _ & HL & HQ & _) & _ & _ & _ & HF) HR.
  unfold attempts; simpl. f_equal.
  unfold attempt, outcome, in_time, fires. rewrite HU, HN, HL, HQ, HF, HR.
  destruct (URL_resolve w url).
  - now rewrite Nat.add_1_r.
  - apply failed_everywhere.
Qed.

Lemma attempts_wait (w w' : World) (evs : list Event) (url : string) (n : nat) :
  after w evs w' -> requests evs = 0%nat ->
  attempts w' url n = attempts w url n.
Proof.
  intros ((_ & HU & HN & _ & _ & HL & HQ & _) & _ & _ & _ & HF) HR.
  unfold attempts, attempt, outcome, in_time, fires.
  now rewrite HU, HN, HL, HQ, HF, HR, Nat.add_0_r.
Qed.

Lemma wait_run (ms : Z) (w : World) :
  exists w', wait ms w = (Normal tt, w') /\ after w [EvWait ms] w'.
Proof.
  eexists; split; [reflexivity|].
  unfold after, same_browser, requests; cbn. rewrite Nat.add_0_r. tauto.
Qed.

Lemma successes_app (a b : list ProbeResult) :
  successes (a ++ b) = successes a ++ successes b.
Proof.
  induction a as [|[r|] a IH]; simpl; now rewrite ?IH.
Qed.

(** The loop probes [todo] times, whatever the probes return, and leaves
    the successful round-trip times in the order of the attempts. *)
Lemma sampling_run (url : string) (samples : Z) (todo : nat) :
  forall (i : Z) (acc : list Z) (w : World),
  exists w' evs,
    sampling url samples todo i acc w
      = (Normal (acc ++ successes (attempts w url todo)), w') /\
    after w evs w' /\
    probes evs = todo /\ renders evs = [] /\
    requests evs = (match URL_resolve w url with Some _ => todo | None => 0 end)%nat.
Proof.
  induction todo as [|todo IH]; intros i acc w.
  - exists w, []. cbn. rewrite app_nil_r.
    refine (conj eq_refl (conj (after_refl w) _)).
    repeat split. now destruct (URL_resolve w url).
  - destruct (probeRtt_run url 4200 w) as (w1 & e1 & E1 & A1 & P1 & R1 & Q1).
    assert (exists w2 e2, (if i <? samples - 1 then wait 180 else ret tt) w1
                          = (Normal tt, w2) /\ after w1 e2 w2 /\
                          probes e2 = 0%nat /\ renders e2 = [] /\
                          requests e2 = 0%nat) as (w2 & e2 & E2 & A2 & P2 & R2 & Q2).
    { destruct (i <? samples - 1).
      - destruct (wait_run 180 w1) as (w2 & E2 & A2).
        exists w2, [EvWait 180].
        refine (conj E2 (conj A2 _)). now repeat split.
      - exists w1, [].
        refine (conj eq_refl (conj (after_refl w1) _)). now repeat split. }
    set (acc1 := match attempt w url 4200 (fetched w) with
                 | ProbeOk r => acc ++ [r]
                 | ProbeFailed => acc
                 end).
    destruct (IH (i + 1) acc1 w2) as (w3 & e3 & E3 & A3 & P3 & R3 & Q3).
    exists w3, (e1 ++ e2 ++ e3).
    split; [|split; [|split; [|split]]].
    + simpl sampling. unfold bind at 1. rewrite E1.
      unfold bind at 1. rewrite E2. fold acc1. rewrite E3.
      f_equal. f_equal.
      rewrite (attempts_step w w1 e1 url todo A1 Q1).
      rewrite (attempts_wait w1 w2 e2 url todo A2 Q2).
      subst acc1. destruct (attempt w url 4200 (fetched w)); simpl.
      * now rewrite <- app_assoc.
      * reflexivity.
    + eapply after_trans; [exact A1|]. eapply after_trans; eassumption.
    + rewrite !probes_app. lia.
    + rewrite !renders_app, R1, R2, R3. reflexivity.
    + rewrite !requests_app, Q1, Q2, Q3.
      destruct A1 as ((_ & HU1 & _) & _). destruct A2 as ((_ & HU2 & _) & _).
      rewrite HU2, HU1. destruct (URL_resolve w url); lia.
Qed.

(** [measureRtt] returns the reduction of the successful attempts. *)
Lemma measureRtt_run (url : string) (samples : Z) (w : World) :
  exists w' evs,
    measureRtt url samples w
      = (Normal (reduce (successes (attempts w url (Z.to_nat samples))) samples),
         w') /\
    after w evs w' /\
    probes evs = Z.to_nat samples /\ renders evs = [] /\
    requests evs
    = (match URL_resolve w url with Some _ => Z.to_nat samples | None => 0 end)%nat.
Proof.
  unfold measureRtt. rewrite Z.sub_0_r.
  destruct (sampling_run url samples (Z.to_nat samples) 0 [] w)
    as (w' & evs & E & A & P & R & Q).
  exists w', evs. unfold bind. rewrite E. simpl.
  exact (conj eq_refl (conj A (conj P (conj R Q)))).
Qed.

Lemma reduce_none (samples : Z) :
  reduce [] samples
  = {| reachable := false; rtt := None; successful := 0; samples := samples |}.
Proof. reflexivity. Qed.

(** On a non-empty list the reduction is the element of index
    [length / 2] of the sorted list, which is one of the samples. *)
Lemma reduce_some (l : list Z) (samples : Z) :
  l <> [] ->
  exists m,
    reduce l samples
    = {| reachable := true; rtt := Some m;
         successful := Z.of_nat (List.length l); samples := samples |} /\
    nth_error (JS.Array_sort (fun a b => a - b) l) (List.length l / 2) = Some m /\
    In m l.
Proof.
  intros Hl.
  assert (Hlen : (0 < List.length l)%nat) by (destruct l; simpl; [congruence|lia]).
  destruct (index_in_range (JS.Array_sort (fun a b => a - b) l)
              (Z.of_nat (List.length (JS.Array_sort (fun a b => a - b) l)) / 2))
    as (m & Hi & Hn).
  { rewrite Array_sort_length. split.
    - apply Z.div_pos; lia.
    - apply Z.div_lt_upper_bound; lia. }
  exists m. split; [|split].
  - unfold reduce. destruct l as [|x l]; [congruence|].
    rewrite Hi. now rewrite Array_sort_length.
  - rewrite half_length, Array_sort_length in Hn. exact Hn.
  - apply (Permutation_in m (Array_sort_perm l)).
    eapply nth_error_In; exact Hn.
Qed.

(* ================================================================= *)
(** ** The classifier *)

Lemma setPingState_run (state : PingState) (valueText : string) (w : World) :
  exists w',
    setPingState state valueText w = (Normal tt, w') /\
    trace w' = trace w ++ [EvSetPingState state valueText] /\
    fetched w' = fetched w /\ clock w' = clock w /\ drawn w' = drawn w /\
    (statusEl (card w) <> None -> valueEl (card w) <> None ->
     valueEl (card w') = Some valueText).
Proof.
  run_async. cbn.
  destruct (statusEl (card w)), (valueEl (card w)); cbn;
    eexists; repeat split; congruence.
Qed.

(** The classifier renders once, the state being [verdict]. *)
Lemma classify_run (fast slow : Z) (result : AggregateResult) (w : World) :
  exists w' valueText,
    classify fast slow result w = (Normal tt, w') /\
    trace w' = trace w ++ [EvSetPingState (verdict fast slow result) valueText] /\
    fetched w' = fetched w.
Proof.
  unfold classify, verdict.
  destruct (negb (reachable result));
    [|destruct (JS.lt (rtt result) fast);
      [|destruct (JS.le (rtt result) slow)]].
  1, 2, 4:
    match goal with
    | |- context [setPingState ?s ?v ?w0] =>
        destruct (setPingState_run s v w0) as (w' & E & T & F & _ & _ & _);
        exists w', v; now rewrite E
    end.
  unfold randomWarnPing, Math_random, bind, ret. cbv beta iota.
  match goal with
  | |- context [setPingState ?s ?v ?w1] =>
      destruct (setPingState_run s v w1) as (w' & E & T & F & _ & _ & _);
      exists w', v; rewrite E; cbn in T, F; now rewrite T, F
  end.
Qed.

Lemma classify_status (fast slow : Z) (result : AggregateResult) (w : World) :
  terminal_status (trace (snd (classify fast slow result w)))
  = Some (verdict fast slow result).
Proof.
  destruct (classify_run fast slow result w) as (w' & v & E & T & _).
  rewrite E; simpl. rewrite T. apply terminal_status_snoc.
Qed.

(* ================================================================= *)
(** ** Properties of the sampler, the probe and the classifier *)

(** C1, as the code has it. Whenever at least one attempt of a sampler run
    succeeds, the aggregate round-trip time is the element of index
    [floor (length / 2)], counted from 0, of the successful samples sorted in
    ascending order. On an even count [2 * k] that is index [k], the upper
    of the two middle elements, and it is not smaller than the lower one;
    nothing is averaged. Samples [220, 90, 310] reduce to [220] and samples
    [100, 300] reduce to [300]. *)
Theorem C1_median_is_upper_middle (url : string) (n : Z) (w : World) :
  successful_samples w url n <> [] ->
  exists agg w' sorted m,
    measureRtt url n w = (Normal agg, w') /\
    Permutation sorted (successful_samples w url n) /\
    StronglySorted Z.le sorted /\
    nth_error sorted (List.length sorted / 2) = Some m /\
    rtt agg = Some m /\
    (forall k lower,
        List.length sorted = (2 * S k)%nat ->
        nth_error sorted k = Some lower ->
        nth_error sorted (S k) = Some m /\ lower <= m) /\
    (successful_samples w url n = [220; 90; 310] -> m = 220) /\
    (successful_samples w url n = [100; 300] -> m = 300).
Proof.
  intros Hl. unfold successful_samples in *.
  destruct (measureRtt_run url n w) as (w' & evs & E & _).
  destruct (reduce_some _ n Hl) as (m & Hr & Hn & _).
  set (l := successes (attempts w url (Z.to_nat n))) in *.
  exists (reduce l n), w', (JS.Array_sort (fun a b => a - b) l), m.
  rewrite Array_sort_length.
  split; [exact E|].
  split; [apply Array_sort_perm|].
  split; [apply Array_sort_sorted|].
  split; [exact Hn|].
  split; [now rewrite Hr|].
  split; [|split].
  - intros k lower Hlen Hlow.
    rewrite Hlen in Hn.
    replace (2 * S k / 2)%nat with (S k) in Hn
      by (symmetry; rewrite Nat.mul_comm; apply Nat.div_mul; lia).
    split; [exact Hn|].
    pose proof (Array_sort_sorted l) as Hs.
    destruct (nth_error_split _ _ Hlow) as (l1 & l2 & Hsplit & Hk).
    rewrite Hsplit in Hs, Hn.
    rewrite nth_error_app2 in Hn by lia.
    replace (S k - List.length l1)%nat with 1%nat in Hn by lia.
    apply sorted_suffix in Hs.
    inversion Hs as [|? ? _ Hall]; subst.
    destruct l2 as [|y l2]; [discriminate|].
    simpl in Hn. injection Hn as ->.
    now inversion Hall.
  - intros Heq. rewrite Heq in Hn. vm_compute in Hn. congruence.
  - intros Heq. rewrite Heq in Hn. vm_compute in Hn. congruence.
Qed.

Lemma C1_median_is_upper_middle_witness :
  successful_samples two_answers "ping" 2 <> [] /\
  exists agg w' sorted m,
    measureRtt "ping" 2 two_answers = (Normal agg, w') /\
    Permutation sorted (successful_samples two_answers "ping" 2) /\
    StronglySorted Z.le sorted /\
    nth_error sorted (List.length sorted / 2) = Some m /\
    rtt agg = Some m /\
    (forall k lower,
        List.length sorted = (2 * S k)%nat ->
        nth_error sorted k = Some lower ->
        nth_error sorted (S k) = Some m /\ lower <= m) /\
    (successful_samples two_answers "ping" 2 = [220; 90; 310] -> m = 220) /\
    (successful_samples two_answers "ping" 2 = [100; 300] -> m = 300).
Proof.
  assert (H : successful_samples two_answers "ping" 2 <> [])
    by (vm_compute; discriminate).
  split; [exact H|].
  exact (C1_median_is_upper_middle "ping" 2 two_answers H).
Defined.

(** C1 as stated fails: the successful samples [100, 300] do not reduce to
    the lower-middle element [100] but to [300]. *)
Lemma C1_lower_middle_counterexample :
  successful_samples two_answers "ping" 2 = [100; 300] /\
  fst (measureRtt "ping" 2 two_answers)
  = Normal {| reachable := true; rtt := Some 300; successful := 2; samples := 2 |} /\
  rtt (reduce [100; 300] 2) <> Some 100.
Proof.
  split; [vm_compute; reflexivity|].
  split; [vm_compute; reflexivity|].
  vm_compute. discriminate.
Qed.

(** C2. With the thresholds 150 and 700 a reachable aggregate of median
    round-trip time [r] is rendered [up] when [r < 150], [warn] (the
    degraded status) when [150 <= r <= 700] and [down] when [r > 700]; an
    aggregate that is not reachable is rendered [down]. So 149 is [up], 150
    and 700 are degraded and 701 is [down]. *)
Theorem C2_classification_boundaries (result : AggregateResult) (r : Z) (w : World) :
  (reachable result = true -> rtt result = Some r -> r < 150 ->
   final_status (classify 150 700 result w) = Some up) /\
  (reachable result = true -> rtt result = Some r -> 150 <= r <= 700 ->
   final_status (classify 150 700 result w) = Some warn) /\
  (reachable result = true -> rtt result = Some r -> 700 < r ->
   final_status (classify 150 700 result w) = Some down) /\
  (reachable result = false ->
   final_status (classify 150 700 result w) = Some down) /\
  final_status (classify 150 700 (aggregate_of 149) w) = Some up /\
  final_status (classify 150 700 (aggregate_of 150) w) = Some warn /\
  final_status (classify 150 700 (aggregate_of 700) w) = Some warn /\
  final_status (classify 150 700 (aggregate_of 701) w) = Some down.
Proof.
  unfold final_status. rewrite !classify_status. unfold verdict.
  repeat split; try reflexivity.
  - intros -> -> Hr; simpl.
    destruct (Z.ltb_spec r 150); [reflexivity | lia].
  - intros -> -> Hr; simpl.
    destruct (Z.ltb_spec r 150); [lia|].
    destruct (Z.leb_spec r 700); [reflexivity | lia].
  - intros -> -> Hr; simpl.
    destruct (Z.ltb_spec r 150); [lia|].
    destruct (Z.leb_spec r 700); [lia | reflexivity].
  - intros ->. reflexivity.
Qed.

Lemma C2_classification_boundaries_witness :
  final_status (classify 150 700 (aggregate_of 42) three_answers) = Some up /\
  final_status (classify 150 700 (aggregate_of 300) three_answers) = Some warn /\
  final_status (classify 150 700 (aggregate_of 900) three_answers) = Some down /\
  final_status (classify 150 700 (reduce [] 3) three_answers) = Some down.
Proof.
  destruct (C2_classification_boundaries (aggregate_of 42) 42 three_answers)
    as (Hup & _).
  destruct (C2_classification_boundaries (aggregate_of 300) 300 three_answers)
    as (_ & Hwarn & _).
  destruct (C2_classification_boundaries (aggregate_of 900) 900 three_answers)
    as (_ & _ & Hslow & _).
  destruct (C2_classification_boundaries (reduce [] 3) 0 three_answers)
    as (_ & _ & _ & Hdown & _).
  split; [|split; [|split]].
  - apply Hup; [reflexivity | reflexivity | lia].
  - apply Hwarn; [reflexivity | reflexivity | lia].
  - apply Hslow; [reflexivity | reflexivity | lia].
  - apply Hdown. reflexivity.
Defined.

(** C3. For every sample count [n >= 1] and whatever the network does, a
    run of the sampler returns after exactly [n] probe attempts and reports
    [samples = n]: successes do not end the loop early. *)
Theorem C3_attempt_budget (url : string) (n : Z) (w : World) :
  1 <= n ->
  exists agg w' evs,
    measureRtt url n w = (Normal agg, w') /\
    trace w' = trace w ++ evs /\
    Z.of_nat (probes evs) = n /\
    List.length (attempts w url (Z.to_nat n)) = probes evs /\
    samples agg = n.
Proof.
  intros Hn.
  destruct (measureRtt_run url n w) as (w' & evs & E & A & P & _).
  destruct A as (_ & _ & _ & T & _).
  eexists _, w', evs. split; [exact E|].
  split; [exact T|].
  split; [lia|].
  split.
  - unfold attempts. now rewrite length_map, length_seq.
  - now destruct (successes (attempts w url (Z.to_nat n))).
Qed.

Lemma C3_attempt_budget_witness :
  1 <= 3 /\
  exists agg w' evs,
    measureRtt "ping" 3 one_answer = (Normal agg, w') /\
    trace w' = trace one_answer ++ evs /\
    Z.of_nat (probes evs) = 3 /\
    List.length (attempts one_answer "ping" (Z.to_nat 3)) = probes evs /\
    samples agg = 3.
Proof.
  split; [lia|].
  apply (C3_attempt_budget "ping" 3 one_answer). lia.
Defined.

Lemma classify_degraded (result : AggregateResult) (r : Z) (w : World) :
  reachable result = true -> rtt result = Some r -> 150 <= r <= 700 ->
  classify 150 700 result w
  = setPingState warn
      (JS.toString (JS.Math_floor (JS.Double_mul (random w (drawn w)) 11) + 150)
       ++ " мс")
      (set_drawn (S (drawn w)) w).
Proof.
  intros Hreach Hrtt Hr. unfold classify. rewrite Hreach, Hrtt; simpl.
  destruct (Z.ltb_spec r 150); [lia|].
  destruct (Z.leb_spec r 700); [reflexivity | lia].
Qed.

(** C4. A reachable aggregate whose median round-trip time [r] lies in
    [150, 700] is rendered [warn] with the text ["v мс"], where [v] is an
    integer of the band 150..160 computed from the value of [Math.random()]
    alone. The measured round-trip time has no part in it: another
    degraded aggregate, with any other round-trip time of the range and in
    any world giving the same random value, is rendered with the same
    text. *)
Theorem C4_degraded_display_is_synthetic
    (result : AggregateResult) (r : Z) (w : World) :
  reachable result = true -> rtt result = Some r -> 150 <= r <= 700 ->
  JS.in_unit_interval (random w (drawn w)) = true ->
  exists v w',
    classify 150 700 result w = (Normal tt, w') /\
    trace w' = trace w ++ [EvSetPingState warn (JS.toString v ++ " мс")] /\
    (statusEl (card w) <> None -> valueEl (card w) <> None ->
     valueEl (card w') = Some (JS.toString v ++ " мс")%string) /\
    150 <= v <= 160 /\
    v = JS.Math_floor (JS.Double_mul (random w (drawn w)) 11) + 150 /\
    forall (result2 : AggregateResult) (r2 : Z) (w2 : World),
      reachable result2 = true -> rtt result2 = Some r2 -> 150 <= r2 <= 700 ->
      random w2 (drawn w2) = random w (drawn w) ->
      exists w2',
        classify 150 700 result2 w2 = (Normal tt, w2') /\
        trace w2' = trace w2 ++ [EvSetPingState warn (JS.toString v ++ " мс")].
Proof.
  intros Hreach Hrtt Hr Hu.
  set (v := JS.Math_floor (JS.Double_mul (random w (drawn w)) 11) + 150).
  destruct (setPingState_run warn (JS.toString v ++ " мс")
              (set_drawn (S (drawn w)) w)) as (w' & E & T & _ & _ & _ & D).
  exists v, w'.
  split; [now rewrite (classify_degraded result r w Hreach Hrtt Hr)|].
  split; [exact T|].
  split; [exact D|].
  split; [apply randomWarnPing_band; exact Hu|].
  split; [reflexivity|].
  intros result2 r2 w2 Hreach2 Hrtt2 Hr2 Hsame.
  rewrite (classify_degraded result2 r2 w2 Hreach2 Hrtt2 Hr2), Hsame. fold v.
  destruct (setPingState_run warn (JS.toString v ++ " мс")
              (set_drawn (S (drawn w2)) w2)) as (w2' & E2 & T2 & _).
  exists w2'. split; [exact E2 | exact T2].
Qed.

Lemma C4_degraded_display_is_synthetic_witness :
  exists v w',
    classify 150 700 (aggregate_of 640) three_answers = (Normal tt, w') /\
    trace w' = trace three_answers
               ++ [EvSetPingState warn (JS.toString v ++ " мс")] /\
    150 <= v <= 160 /\
    exists w2',
      classify 150 700 (aggregate_of 151) two_answers = (Normal tt, w2') /\
      trace w2' = trace two_answers
                  ++ [EvSetPingState warn (JS.toString v ++ " мс")].
Proof.
  destruct (C4_degraded_display_is_synthetic (aggregate_of 640) 640 three_answers)
    as (v & w' & E & T & _ & B & _ & N);
    [reflexivity | reflexivity | lia | reflexivity |].
  exists v, w'.
  refine (conj E (conj T (conj B _))).
  apply (N (aggregate_of 151) 151 two_answers);
    [reflexivity | reflexivity | lia | reflexivity].
Defined.



(** C6. A card whose url is missing or empty is rendered [down] at once:
    the handler does nothing but that one call of [setPingState], so no
    probe is attempted, no request is issued and no time passes. *)
Theorem C6_unconfigured_target (w : World) :
  pingUrl (card w) = None \/ pingUrl (card w) = Some EmptyString ->
  exists w',
    pingCard_handler w = (Normal tt, w') /\
    trace w' = trace w ++ [EvSetPingState down "недоступен"] /\
    final_status (pingCard_handler w) = Some down /\
    probes (trace w') = probes (trace w) /\
    requests (trace w') = requests (trace w) /\
    fetched w' = fetched w /\
    clock w' = clock w.
Proof.
  intros Hurl.
  destruct (setPingState_run down "недоступен" w) as (w' & E & T & F & C & _).
  assert (Hrun : pingCard_handler w = (Normal tt, w')).
  { unfold pingCard_handler, pingCard_handler_with, bind, gets.
    destruct Hurl as [-> | ->]; exact E. }
  exists w'. split; [exact Hrun|].
  split; [exact T|].
  split; [unfold final_status; rewrite Hrun; simpl; rewrite T;
          apply terminal_status_snoc|].
  rewrite T, probes_app, requests_app. unfold probes, requests; simpl.
  repeat split; auto with arith.
Qed.

Lemma C6_unconfigured_target_witness :
  pingUrl (card unconfigured) = None /\
  exists w',
    pingCard_handler unconfigured = (Normal tt, w') /\
    trace w' = trace unconfigured ++ [EvSetPingState down "недоступен"] /\
    final_status (pingCard_handler unconfigured) = Some down /\
    probes (trace w') = probes (trace unconfigured) /\
    requests (trace w') = requests (trace unconfigured) /\
    fetched w' = fetched unconfigured /\
    clock w' = clock unconfigured.
Proof.
  split; [reflexivity|].
  apply (C6_unconfigured_target unconfigured). left. reflexivity.
Defined.

Lemma successes_length (l : list ProbeResult) :
  (List.length (successes l) <= List.length l)%nat.
Proof.
  induction l as [|[r|] l IH]; simpl; lia.
Qed.

Lemma successes_In (l : list ProbeResult) (r : Z) :
  In r (successes l) <-> In (ProbeOk r) l.
Proof.
  induction l as [|[x|] l IH]; simpl.
  - tauto.
  - rewrite IH. split; intros [H|H]; auto; left; congruence.
  - rewrite IH. split; [auto|]. intros [H|H]; [discriminate | exact H].
Qed.

(** C7. For every run of the sampler with a sample count [n >= 0]:
    [0 <= successful <= samples], [successful] being the number of
    successful attempts; [reachable] holds exactly when some attempt
    succeeded; [rtt] is present exactly when [reachable] holds; and when
    every attempt fails the aggregate is unreachable with [successful = 0]
    and is rendered [down] under every pair of thresholds. *)
Theorem C7_aggregate_invariants (url : string) (n : Z) (w : World) :
  0 <= n ->
  exists agg w',
    measureRtt url n w = (Normal agg, w') /\
    0 <= successful agg <= samples agg /\
    successful agg = Z.of_nat (List.length (successful_samples w url n)) /\
    (reachable agg = true <->
     exists r, In (ProbeOk r) (attempts w url (Z.to_nat n))) /\
    (rtt agg <> None <-> reachable agg = true) /\
    ((forall p, In p (attempts w url (Z.to_nat n)) -> p = ProbeFailed) ->
     reachable agg = false /\ successful agg = 0 /\
     forall (fast slow : Z) (w1 : World),
       final_status (classify fast slow agg w1) = Some down).
Proof.
  intros Hn.
  destruct (measureRtt_run url n w) as (w' & evs & E & _).
  eexists _, w'. split; [exact E|].
  unfold successful_samples.
  pose proof (successes_length (attempts w url (Z.to_nat n))) as Hlen.
  assert (Hatt : List.length (attempts w url (Z.to_nat n)) = Z.to_nat n)
    by (unfold attempts; now rewrite length_map, length_seq).
  pose proof (successes_In (attempts w url (Z.to_nat n))) as Hin.
  destruct (successes (attempts w url (Z.to_nat n))) as [|x l] eqn:Hl.
  - rewrite reduce_none; simpl.
    split; [lia|]. split; [reflexivity|].
    split; [|split].
    + split; [discriminate|]. intros [r Hr]. apply Hin in Hr. destruct Hr.
    + split; [congruence | discriminate].
    + intros _. split; [reflexivity|]. split; [reflexivity|].
      intros fast slow w1. unfold final_status. now rewrite classify_status.
  - destruct (reduce_some (x :: l) n) as (m & Hr & _ & _); [discriminate|].
    rewrite Hr; simpl. simpl in Hlen.
    split; [lia|]. split; [reflexivity|].
    split; [|split].
    + split; [|reflexivity]. intros _. exists x. apply Hin. now left.
    + split; [reflexivity | discriminate].
    + intros Hall. specialize (Hall (ProbeOk x)).
      discriminate Hall. apply Hin. now left.
Qed.

Lemma C7_aggregate_invariants_witness :
  0 <= 3 /\
  (forall p, In p (attempts silence "ping" (Z.to_nat 3)) -> p = ProbeFailed) /\
  exists agg w',
    measureRtt "ping" 3 silence = (Normal agg, w') /\
    0 <= successful agg <= samples agg /\
    reachable agg = false /\ successful agg = 0 /\
    forall (fast slow : Z) (w1 : World),
      final_status (classify fast slow agg w1) = Some down.
Proof.
  assert (Hn : 0 <= 3) by lia.
  assert (Hall : forall p, In p (attempts silence "ping" (Z.to_nat 3)) ->
                           p = ProbeFailed).
  { intros p Hp. vm_compute in Hp. intuition congruence. }
  refine (conj Hn (conj Hall _)).
  destruct (C7_aggregate_invariants "ping" 3 silence Hn)
    as (agg & w' & E & Hb & _ & _ & _ & Hfail).
  exists agg, w'. exact (conj E (conj Hb (Hfail Hall))).
Defined.

Lemma run_status (url : string) (n fast slow : Z) (w : World) :
  final_status ((result <- measureRtt url n ;; classify fast slow result) w)
  = Some (verdict fast slow (reduce (successes (attempts w url (Z.to_nat n))) n)).
Proof.
  destruct (measureRtt_run url n w) as (w' & evs & E & _).
  unfold final_status, bind. rewrite E. apply classify_status.
Qed.

Lemma handler_status (fast slow : Z) (w : World) :
  final_status (pingCard_handler_with fast slow w)
  = Some match pingUrl (card w) with
         | None => down
         | Some url =>
             if String.eqb url EmptyString then down
             else verdict fast slow (reduce (successes (attempts w url 3)) 3)
         end.
Proof.
  unfold pingCard_handler_with. unfold bind at 1. unfold gets.
  destruct (pingUrl (card w)) as [url|].
  - destruct (String.eqb url EmptyString).
    + destruct (setPingState_run down "недоступен" w) as (w' & E & T & _).
      unfold final_status. rewrite E; simpl. rewrite T.
      apply terminal_status_snoc.
    + apply (run_status url 3 fast slow w).
  - destruct (setPingState_run down "недоступен" w) as (w' & E & T & _).
    unfold final_status. rewrite E; simpl. rewrite T.
    apply terminal_status_snoc.
Qed.

(** C8. The status a run ends on is a function of the sequence of probe
    outcomes: two runs of the sampler and the classifier over the same
    outcomes end on the same status, whatever else differs between the two
    worlds (random values, clock, earlier trace, the way requests are
    cancelled); and so do two runs of the card handler. *)
Theorem C8_status_is_deterministic
    (url : string) (n fast slow : Z) (w1 w2 : World) :
  (attempts w1 url (Z.to_nat n) = attempts w2 url (Z.to_nat n) ->
   final_status ((result <- measureRtt url n ;; classify fast slow result) w1)
   = final_status ((result <- measureRtt url n ;; classify fast slow result) w2))
  /\
  (pingUrl (card w1) = Some url -> pingUrl (card w2) = Some url ->
   attempts w1 url 3 = attempts w2 url 3 ->
   final_status (pingCard_handler w1) = final_status (pingCard_handler w2)).
Proof.
  split.
  - intros Hsame. now rewrite !run_status, Hsame.
  - intros H1 H2 Hsame. unfold pingCard_handler.
    now rewrite !handler_status, H1, H2, Hsame.
Qed.

Lemma C8_status_is_deterministic_witness :
  attempts three_answers "ping" (Z.to_nat 3)
  = attempts three_answers_again "ping" (Z.to_nat 3) /\
  final_status
    ((result <- measureRtt "ping" 3 ;; classify 150 700 result) three_answers)
  = final_status
      ((result <- measureRtt "ping" 3 ;; classify 150 700 result)
         three_answers_again) /\
  final_status (pingCard_handler three_answers)
  = final_status (pingCard_handler three_answers_again).
Proof.
  assert (Hsame : attempts three_answers "ping" (Z.to_nat 3)
                  = attempts three_answers_again "ping" (Z.to_nat 3))
    by (vm_compute; reflexivity).
  destruct (C8_status_is_deterministic "ping" 3 150 700
              three_answers three_answers_again) as (Hrun & Hcard).
  refine (conj Hsame (conj (Hrun Hsame) _)).
  apply Hcard; [reflexivity | reflexivity | exact Hsame].
Defined.

(** C9. With a sample count of 0 the sampler probes nothing and returns
    [{ reachable: false, successful: 0, samples: 0 }], leaving the world as
    it was; the classifier renders that aggregate [down], whatever the
    thresholds. *)
Theorem C9_zero_budget (url : string) (w : World) (fast slow : Z) :
  measureRtt url 0 w
  = (Normal {| reachable := false; rtt := None; successful := 0; samples := 0 |},
     w) /\
  final_status ((result <- measureRtt url 0 ;; classify fast slow result) w)
  = Some down.
Proof.
  split; [reflexivity|].
  unfold bind. cbn [measureRtt]. unfold final_status.
  change (measureRtt url 0 w) with
    (Normal (reduce [] 0), w). cbv beta iota.
  now rewrite classify_status.
Qed.

(** C10. Every run of the sampler returns, and when its aggregate is
    reachable the aggregate round-trip time is one of the round-trip times
    of the successful attempts of the run. *)
Theorem C10_median_is_a_sample (url : string) (n : Z) (w : World) :
  exists agg w',
    measureRtt url n w = (Normal agg, w') /\
    (reachable agg = true ->
     exists r, rtt agg = Some r /\ In r (successful_samples w url n)).
Proof.
  destruct (measureRtt_run url n w) as (w' & evs & E & _).
  eexists _, w'. split; [exact E|].
  unfold successful_samples.
  destruct (successes (attempts w url (Z.to_nat n))) as [|x l] eqn:Hl.
  - discriminate.
  - intros _.
    destruct (reduce_some (x :: l) n) as (m & Hr & _ & Hin); [discriminate|].
    exists m. now rewrite Hr.
Qed.

Lemma C10_median_is_a_sample_witness :
  exists agg w',
    measureRtt "ping" 3 one_answer = (Normal agg, w') /\
    reachable agg = true /\
    exists r, rtt agg = Some r /\ In r (successful_samples one_answer "ping" 3).
Proof.
  destruct (C10_median_is_a_sample "ping" 3 one_answer) as (agg & w' & E & H).
  exists agg, w'.
  assert (Hr : reachable agg = true).
  { vm_compute in E. injection E as <- _. reflexivity. }
  exact (conj E (conj Hr (H Hr))).
Defined.

(* ================================================================= *)
(** ** More on the ping cards: the DOM, the timers, the pace of a run *)

Lemma classList_remove_In (tokens classes : list string) (c : string) :
  In c (classList_remove tokens classes) <-> In c classes /\ ~ In c tokens.
Proof.
  unfold classList_remove. rewrite filter_In, negb_true_iff.
  split; intros [Hc Hn]; split; trivial.
  - intros Hin. assert (existsb (String.eqb c) tokens = true) as E.
    { apply existsb_exists. exists c. split; [exact Hin | apply String.eqb_refl]. }
    congruence.
  - destruct (existsb (String.eqb c) tokens) eqn:E; [|reflexivity].
    apply existsb_exists in E. destruct E as (x & Hx & Hcx).
    apply String.eqb_eq in Hcx. subst x. contradiction.
Qed.

Lemma classList_add_In (token : string) (classes : list string) (c : string) :
  In c (classList_add token classes) <-> c = token \/ In c classes.
Proof.
  unfold classList_add.
  destruct (existsb (String.eqb token) classes) eqn:E.
  - split; [auto|]. intros [-> | H]; [|exact H].
    apply existsb_exists in E. destruct E as (x & Hx & Htx).
    apply String.eqb_eq in Htx. now subst x.
  - rewrite in_app_iff; simpl. intuition.
Qed.

Lemma state_class_status (s : PingState) : In (state_class s) status_classes.
Proof. destruct s; simpl; auto. Qed.

Lemma setPingState_card (state : PingState) (valueText : string) (w : World) :
  card (snd (setPingState state valueText w))
  = match statusEl (card w), valueEl (card w) with
    | Some classes, Some _ =>
        {| pingUrl := pingUrl (card w);
           statusEl := Some (classList_add (state_class state)
                               (classList_remove status_classes classes));
           valueEl := Some valueText |}
    | _, _ => card w
    end.
Proof.
  run_async. cbn.
  destruct (statusEl (card w)), (valueEl (card w)); reflexivity.
Qed.

(** X1. On a card that has both child elements, [setPingState] leaves the
    status element with the class of [state], with none of the other three
    status classes, and with every other class it had; the value element
    gets [valueText]. On a card that lacks a child element nothing is
    written. *)
Theorem setPingState_shows_one_status
    (state : PingState) (valueText : string) (w : World) :
  (forall classes old,
      statusEl (card w) = Some classes -> valueEl (card w) = Some old ->
      exists classes',
        card (snd (setPingState state valueText w))
        = {| pingUrl := pingUrl (card w); statusEl := Some classes';
             valueEl := Some valueText |} /\
        (forall c, In c classes' <->
                   c = state_class state \/
                   (In c classes /\ ~ In c status_classes)) /\
        (forall other, other <> state -> ~ In (state_class other) classes')) /\
  (statusEl (card w) = None \/ valueEl (card w) = None ->
   card (snd (setPingState state valueText w)) = card w).
Proof.
  rewrite setPingState_card. split.
  - intros classes old -> ->. eexists. split; [reflexivity|].
    assert (Hmem : forall c,
               In c (classList_add (state_class state)
                       (classList_remove status_classes classes)) <->
               c = state_class state \/ (In c classes /\ ~ In c status_classes)).
    { intros c. now rewrite classList_add_In, classList_remove_In. }
    split; [exact Hmem|].
    intros other Hother Hin. apply Hmem in Hin.
    destruct Hin as [Heq | [_ Hno]].
    + destruct other, state; simpl in Heq; congruence.
    + apply Hno, state_class_status.
  - intros [-> | ->]; [reflexivity|].
    now destruct (statusEl (card w)).
Qed.

Lemma setPingState_shows_one_status_witness :
  exists classes',
    card (snd (setPingState up "42 мс" three_answers))
    = {| pingUrl := Some "ping"%string; statusEl := Some classes';
         valueEl := Some "42 мс"%string |} /\
    In "status"%string classes' /\ In "status--up"%string classes' /\
    ~ In "status--checking"%string classes'.
Proof.
  destruct (setPingState_shows_one_status up "42 мс" three_answers) as (H & _).
  destruct (H ["status"; "status--checking"]%string "измеряем..."%string
              eq_refl eq_refl) as (classes' & E & M & N).
  exists classes'. split; [exact E|].
  split; [|split].
  - apply M. right. split; [simpl; auto|].
    simpl. intuition discriminate.
  - apply M. left. reflexivity.
  - apply (N checking). discriminate.
Defined.

Lemma classList_remove_idem (tokens classes : list string) :
  classList_remove tokens (classList_remove tokens classes)
  = classList_remove tokens classes.
Proof.
  unfold classList_remove.
  induction classes as [|c l IH]; simpl; [reflexivity|].
  destruct (negb (existsb (String.eqb c) tokens)) eqn:E; simpl;
    rewrite ?E, IH; reflexivity.
Qed.

Lemma remove_status_twice (s : PingState) (classes : list string) :
  classList_remove status_classes
    (classList_add (state_class s) (classList_remove status_classes classes))
  = classList_remove status_classes classes.
Proof.
  unfold classList_add.
  destruct (existsb _ (classList_remove status_classes classes)).
  - apply classList_remove_idem.
  - unfold classList_remove at 1. rewrite filter_app.
    fold (classList_remove status_classes
            (classList_remove status_classes classes)).
    rewrite classList_remove_idem. destruct s; simpl; apply app_nil_r.
Qed.

(** X2. Of two calls of [setPingState] in a row the second decides what the
    card shows: the card is left as the second call alone would leave
    it. *)
Theorem setPingState_last_call_wins
    (s1 s2 : PingState) (v1 v2 : string) (w : World) :
  card (snd ((setPingState s1 v1 ;; setPingState s2 v2) w))
  = card (snd (setPingState s2 v2 w)).
Proof.
  unfold bind.
  destruct (setPingState_run s1 v1 w) as (w1 & E1 & _).
  pose proof (setPingState_card s1 v1 w) as C1. rewrite E1 in C1 |- *.
  simpl in C1. rewrite !setPingState_card.
  destruct (statusEl (card w)) as [classes|] eqn:Hs;
    destruct (valueEl (card w)) as [old|] eqn:Hv;
    rewrite C1; simpl; rewrite ?Hs, ?Hv; try reflexivity.
  now rewrite remove_status_twice.
Qed.

Lemma probeRtt_trace (url : string) (timeoutMs : Z) (w : World) :
  trace (snd (probeRtt url timeoutMs w)) = trace w ++ probe_events w url timeoutMs.
Proof.
  unfold probe_events. run_async. unfold in_time, fires. step_goal.
  destruct (hasAbortController w); step_goal;
    (destruct (URL_resolve w url) as [h|]; step_goal;
     [destruct (net w (fetched w)) as [t|t|]; step_goal;
      try (destruct (JS.Qltb t _ || _); step_goal)|]);
    rewrite <- ?app_assoc; reflexivity.
Qed.

Lemma probeRtt_clock (url : string) (timeoutMs : Z) (w : World) :
  (clock (snd (probeRtt url timeoutMs w))
   == clock w + probe_duration w url timeoutMs)%Q.
Proof.
  unfold probe_duration. run_async. unfold in_time, fires. step_goal.
  destruct (hasAbortController w); step_goal;
    (destruct (URL_resolve w url) as [h|]; step_goal;
     [destruct (net w (fetched w)) as [t|t|]; step_goal;
      try (destruct (JS.Qltb t _ || _); step_goal)|]);
    try reflexivity; ring.
Qed.

(** X3. Where [AbortController] exists, every probe clears its timer,
    exactly once and as its last act, also when the probe fails; it aborts
    the request exactly when a request was issued and has not settled
    before the deadline. Without [AbortController] a probe neither aborts
    nor clears anything. *)
Theorem probe_timer_is_always_cleared (url : string) (timeoutMs : Z) (w : World) :
  exists evs,
    trace (snd (probeRtt url timeoutMs w)) = trace w ++ evs /\
    (hasAbortController w = true ->
     List.length (filter is_clearTimeout evs) = 1%nat /\
     last evs EvAbort = EvClearTimeout /\
     (In EvAbort evs <->
      URL_resolve w url <> None /\
      in_time w timeoutMs (fetched w) = false)) /\
    (hasAbortController w = false ->
     ~ In EvAbort evs /\ ~ In EvClearTimeout evs).
Proof.
  exists (probe_events w url timeoutMs).
  split; [apply probeRtt_trace|].
  unfold probe_events.
  split; intros ->; simpl;
    destruct (URL_resolve w url) as [h|]; simpl;
    try destruct (in_time w timeoutMs (fetched w)); simpl;
    intuition (try discriminate; try congruence).
Qed.

Lemma probe_timer_is_always_cleared_witness :
  exists evs,
    trace (snd (probeRtt "ping" 4200 silence)) = trace silence ++ evs /\
    List.length (filter is_clearTimeout evs) = 1%nat /\
    last evs EvAbort = EvClearTimeout /\
    In EvAbort evs.
Proof.
  destruct (probe_timer_is_always_cleared "ping" 4200 silence)
    as (evs & T & Hab & _).
  destruct (Hab eq_refl) as (Hone & Hlast & Habort).
  exists evs. refine (conj T (conj Hone (conj Hlast _))).
  apply Habort. split; [discriminate | reflexivity].
Defined.

Lemma round_nonneg (t : Q) : (0 <= t)%Q -> 0 <= JS.Math_round t.
Proof.
  intros Ht. destruct (Math_round_nearest t) as [_ Hhi].
  pose proof (Qle_lt_trans _ _ _ Ht Hhi) as H.
  unfold Qlt, Qplus, inject_Z in H; simpl in H. lia.
Qed.

Lemma fires_nonneg (w : World) (timeoutMs : Z) (k : nat) :
  (0 <= fires w timeoutMs k)%Q.
Proof.
  unfold fires.
  pose proof (timer_delay_nonneg timeoutMs) as Hd.
  pose proof (lateness_nonneg (deadline_late w k)) as Hl.
  assert (H0 : (0 <= inject_Z (JS.timer_delay timeoutMs))%Q)
    by (unfold Qle, inject_Z; simpl; lia).
  setoid_replace 0%Q with (0 + 0)%Q by ring.
  now apply Qplus_le_compat.
Qed.

(** A request that is in time has settled when its timer fires. *)
Lemma in_time_le (w : World) (timeoutMs : Z) (k : nat) (t : Q) :
  net w k = Fulfils t \/ net w k = Rejects t ->
  in_time w timeoutMs k = true -> (t <= fires w timeoutMs k)%Q.
Proof.
  intros HN H. unfold in_time in H.
  assert (Hb : JS.Qltb t (fires w timeoutMs k)
               || Qeq_bool t (fires w timeoutMs k) && request_first w k = true)
    by (destruct HN as [HN|HN]; now rewrite HN in H).
  apply orb_true_iff in Hb. destruct Hb as [Hb|Hb].
  - apply Qltb_lt in Hb. now apply Qlt_le_weak.
  - apply andb_true_iff in Hb. destruct Hb as [Hb _].
    apply Qeq_bool_iff in Hb. rewrite Hb. apply Qle_refl.
Qed.

Lemma probe_duration_bounds (w : World) (url : string) (timeoutMs : Z) :
  (probe_duration w url timeoutMs <= fires w timeoutMs (fetched w))%Q /\
  (causal w -> 0 <= probe_duration w url timeoutMs)%Q.
Proof.
  unfold probe_duration.
  pose proof (fires_nonneg w timeoutMs (fetched w)) as H0.
  destruct (URL_resolve w url) as [h|];
    [|split; [exact H0 | intros _; apply Qle_refl]].
  destruct (net w (fetched w)) as [t|t|] eqn:HN;
    try (destruct (in_time w timeoutMs (fetched w)) eqn:Hin);
    split; intros; try apply Qle_refl; try exact H0;
    try (apply (in_time_le w timeoutMs (fetched w) t); auto);
    match goal with
    | Hc : causal w |- _ => apply (Hc (fetched w) t); auto
    end.
Qed.

Lemma attempt_nonneg (w : World) (url : string) (timeoutMs : Z) (k : nat) (r : Z) :
  causal w -> attempt w url timeoutMs k = ProbeOk r -> 0 <= r.
Proof.
  intros Hc. unfold attempt, outcome.
  destruct (URL_resolve w url); [|discriminate].
  destruct (net w k) as [t|t|] eqn:HN; try discriminate.
  destruct (in_time w timeoutMs k); [|discriminate].
  intros H; injection H as <-.
  apply round_nonneg, binary64_nonneg. apply (Hc k t). auto.
Qed.

Lemma long_wraps (ms : Z) : 2 ^ 31 <= ms < 2 ^ 32 -> JS.timer_delay ms = 0.
Proof.
  intros H. unfold JS.timer_delay, JS.long.
  replace (ms + 2 ^ 31) with ((ms - 2 ^ 31) + 1 * 2 ^ 32) by lia.
  rewrite Z.mod_add by lia. rewrite Z.mod_small; lia.
Qed.

(** X4. A probe does not outlast its timer: whatever the request does,
    also when it never settles, the probe is over when the timer fires, at
    the latest. The timer fires [timeoutMs] milliseconds after the probe
    started, and as much later as the browser is late, when
    [0 <= timeoutMs < 2 ^ 31]; from [2 ^ 31] on the delay does not fit the
    32 bits of [setTimeout] and the timer is armed with no delay at all.
    A probe of a url that cannot be parsed takes no time. When no request
    settles at a negative time, the clock does not go back and the
    round-trip time reported is not negative. *)
Theorem probe_ends_with_its_timer (url : string) (timeoutMs : Z) (w : World) :
  (clock (snd (probeRtt url timeoutMs w))
   <= clock w + fires w timeoutMs (fetched w))%Q /\
  (0 <= timeoutMs < 2 ^ 31 ->
   (fires w timeoutMs (fetched w)
    == inject_Z timeoutMs + JS.lateness (deadline_late w (fetched w)))%Q) /\
  (2 ^ 31 <= timeoutMs < 2 ^ 32 ->
   (fires w timeoutMs (fetched w)
    == JS.lateness (deadline_late w (fetched w)))%Q) /\
  (URL_resolve w url = None ->
   (clock (snd (probeRtt url timeoutMs w)) == clock w)%Q) /\
  (causal w ->
   (clock w <= clock (snd (probeRtt url timeoutMs w)))%Q /\
   forall r, fst (probeRtt url timeoutMs w) = Normal (ProbeOk r) -> 0 <= r).
Proof.
  destruct (probe_duration_bounds w url timeoutMs) as [Hup Hlow].
  pose proof (probeRtt_clock url timeoutMs w) as Hc.
  destruct (probeRtt_run url timeoutMs w) as (w' & evs & E & _).
  rewrite E in *; simpl in *.
  split; [|split; [|split; [|split]]].
  - rewrite Hc. apply Qplus_le_r. exact Hup.
  - intros HT. unfold fires. now rewrite timer_delay_in_range.
  - intros HT. unfold fires. rewrite long_wraps by exact HT.
    apply Qplus_0_l.
  - intros HU. rewrite Hc. unfold probe_duration. rewrite HU.
    apply Qplus_0_r.
  - intros Hcausal. split.
    + rewrite Hc. rewrite <- (Qplus_0_r (clock w)) at 1.
      apply Qplus_le_r. now apply Hlow.
    + intros r Hr. injection Hr as Hr.
      exact (attempt_nonneg w url timeoutMs (fetched w) r Hcausal Hr).
Qed.

Lemma three_answers_causal : causal three_answers.
Proof.
  intros k t. unfold three_answers, page, settles; simpl.
  destruct k as [|[|[|k]]]; simpl;
    try (destruct k; simpl);
    intros [H|H]; try discriminate; injection H as <-;
    unfold Qle; simpl; lia.
Qed.

Lemma probe_ends_with_its_timer_witness :
  (clock three_answers <= clock (snd (probeRtt "ping" 4200 three_answers)))%Q /\
  (clock (snd (probeRtt "ping" 4200 three_answers))
   <= clock three_answers + fires three_answers 4200 0)%Q /\
  (fires three_answers 4200 0 == 4200 # 1)%Q /\
  (fires silence 2147483648 0 == 0)%Q /\
  (clock (snd (probeRtt "ping" 2147483648 silence)) <= clock silence + 0)%Q.
Proof.
  destruct (probe_ends_with_its_timer "ping" 4200 three_answers)
    as (Hup & Hin & _ & _ & Hcausal).
  destruct (probe_ends_with_its_timer "ping" 2147483648 silence)
    as (Hup' & _ & Hwrap & _).
  destruct (Hcausal three_answers_causal) as (Hlow & _).
  split; [exact Hlow|]. split; [exact Hup|].
  split; [rewrite Hin by lia; reflexivity|].
  assert (Hw : (fires silence 2147483648 0 == 0)%Q)
    by (rewrite Hwrap by lia; reflexivity).
  split; [exact Hw|].
  eapply Qle_trans; [exact Hup'|].
  change (fetched silence) with 0%nat. rewrite Hw. apply Qle_refl.
Defined.

Lemma pacing_app (a b : list Event) : pacing (a ++ b) = pacing a ++ pacing b.
Proof. apply filter_app. Qed.

Lemma pacing_probe (w : World) (url : string) :
  pacing (probe_events w url 4200) = probe_slot url (races w url).
Proof.
  unfold probe_events, probe_slot, races.
  destruct (hasAbortController w), (URL_resolve w url); simpl;
    try destruct (in_time w 4200 (fetched w)); reflexivity.
Qed.

Lemma races_same (w w' : World) (url : string) :
  same_browser w w' -> races w' url = races w url.
Proof.
  intros (HA & HU & _). unfold races. now rewrite HA, HU.
Qed.

Lemma causal_same (w w' : World) : same_browser w w' -> causal w -> causal w'.
Proof.
  intros (_ & _ & HN & _) Hc k t. rewrite HN. apply Hc.
Qed.

(** A pause lasts as long as asked, or longer. *)
Lemma wait_clock (ms : Z) (w : World) :
  0 <= ms < 2 ^ 31 ->
  (clock w + inject_Z ms <= clock (snd (wait ms w)))%Q.
Proof.
  intros Hms. unfold wait, wait_call, log, bind, gets, advance. step_goal.
  rewrite timer_delay_in_range by exact Hms.
  apply Qplus_le_r.
  rewrite <- (Qplus_0_r (inject_Z ms)) at 1.
  apply Qplus_le_r. apply lateness_nonneg.
Qed.

(** The loop follows the schedule, and takes the time of its pauses at
    least. *)
Lemma sampling_pace (url : string) (samples : Z) (todo : nat) :
  forall (i : Z) (acc : list Z) (w : World),
    (todo <> 0%nat -> Z.of_nat todo = samples - i) ->
    exists evs,
      trace (snd (sampling url samples todo i acc w)) = trace w ++ evs /\
      pacing evs = schedule url (races w url) todo /\
      (causal w ->
       (clock w + inject_Z (180 * Z.of_nat (pred todo))
        <= clock (snd (sampling url samples todo i acc w)))%Q).
Proof.
  induction todo as [|todo IH]; intros i acc w Hi.
  - exists []. simpl. rewrite app_nil_r.
    split; [reflexivity|]. split; [reflexivity|].
    intros _. rewrite Qplus_0_r. apply Qle_refl.
  - specialize (Hi ltac:(discriminate)).
    destruct (probeRtt_run url 4200 w) as (w1 & e1 & E1 & A1 & _).
    pose proof (probeRtt_trace url 4200 w) as T1.
    pose proof (probeRtt_clock url 4200 w) as C1.
    destruct (probe_duration_bounds w url 4200) as [_ Dlow].
    rewrite E1 in T1, C1; simpl in T1, C1.
    pose proof (after_browser _ _ _ A1) as B1.
    set (acc1 := match attempt w url 4200 (fetched w) with
                 | ProbeOk r => acc ++ [r]
                 | ProbeFailed => acc
                 end).
    destruct (Z.ltb_spec i (samples - 1)) as [Hmore|Hlast].
    + destruct (wait_run 180 w1) as (w2 & E2 & A2).
      pose proof (after_browser _ _ _ A2) as B2.
      assert (Hrun : sampling url samples (S todo) i acc w
                     = sampling url samples todo (i + 1) acc1 w2).
      { simpl. unfold bind at 1. rewrite E1. unfold bind at 1.
        rewrite (proj2 (Z.ltb_lt _ _) Hmore), E2. reflexivity. }
      rewrite Hrun.
      destruct (IH (i + 1) acc1 w2 ltac:(lia)) as (e3 & T3 & P3 & L3).
      assert (T2 : trace w2 = trace w1 ++ [EvWait 180])
        by (destruct A2 as (_ & _ & _ & T & _); exact T).
      pose proof (wait_clock 180 w1 ltac:(lia)) as C2.
      rewrite E2 in C2; simpl in C2.
      rewrite T2 in T3.
      rewrite (races_same w1 w2 url B2), (races_same w w1 url B1) in P3.
      exists (probe_events w url 4200 ++ [EvWait 180] ++ e3).
      split; [|split].
      * rewrite T3, T1. now rewrite <- !app_assoc.
      * rewrite !pacing_app, pacing_probe, P3.
        destruct todo as [|todo]; [lia | reflexivity].
      * intros Hc.
        assert (Hc2 : causal w2)
          by (apply (causal_same w1 w2 B2), (causal_same w w1 B1), Hc).
        specialize (L3 Hc2). specialize (Dlow Hc).
        destruct todo as [|todo]; [lia|].
        eapply Qle_trans; [|exact L3].
        eapply Qle_trans; [|apply Qplus_le_l; exact C2].
        rewrite C1.
        replace (180 * Z.of_nat (pred (S (S todo))))
          with (180 + 180 * Z.of_nat (pred (S todo))) by lia.
        rewrite inject_Z_plus.
        setoid_replace (clock w + (inject_Z 180
                                    + inject_Z (180 * Z.of_nat (pred (S todo)))))%Q
          with (clock w + 0 + inject_Z 180
                + inject_Z (180 * Z.of_nat (pred (S todo))))%Q by ring.
        repeat apply Qplus_le_l. apply Qplus_le_r. exact Dlow.
    + assert (todo = 0%nat) by lia. subst todo.
      assert (Hrun : sampling url samples 1 i acc w = (Normal acc1, w1)).
      { simpl. unfold bind at 1. rewrite E1. unfold bind at 1.
        rewrite (proj2 (Z.ltb_ge _ _) Hlast). reflexivity. }
      rewrite Hrun. simpl.
      exists (probe_events w url 4200). rewrite pacing_probe.
      split; [exact T1|]. split; [reflexivity|].
      intros Hc. rewrite C1.
      apply Qplus_le_r. now apply Dlow.
Qed.

Lemma measureRtt_world (url : string) (n : Z) (w : World) :
  snd (measureRtt url n w) = snd (sampling url n (Z.to_nat n) 0 [] w).
Proof.
  unfold measureRtt. rewrite Z.sub_0_r.
  destruct (sampling_run url n (Z.to_nat n) 0 [] w) as (w' & evs & E & _).
  unfold bind. now rewrite E.
Qed.



Lemma probe_slot_shape (url : string) (racing : bool) :
  filter is_pause (probe_slot url racing) = [] /\
  filter is_wait (probe_slot url racing)
  = (if racing then [EvWait 4200] else []) /\
  (forall d, is_pause (last (probe_slot url racing) d) = false).
Proof. destruct racing; repeat split. Qed.





Lemma aggregate_rtt_nonneg (url : string) (n : Z) (w : World) :
  causal w ->
  forall agg r,
    fst (measureRtt url n w) = Normal agg -> rtt agg = Some r -> 0 <= r.
Proof.
  intros Hc agg r Hagg Hr.
  destruct (measureRtt_run url n w) as (w' & evs & E & _).
  rewrite E in Hagg; simpl in Hagg. injection Hagg as <-.
  destruct (successes (attempts w url (Z.to_nat n))) as [|x l] eqn:Hl;
    [discriminate|].
  destruct (reduce_some (x :: l) n) as (m & Hred & _ & Hin); [discriminate|].
  rewrite Hred in Hr; simpl in Hr. injection Hr as ->.
  rewrite <- Hl in Hin. apply successes_In in Hin.
  unfold attempts in Hin. apply in_map_iff in Hin.
  destruct Hin as (k & Hk & _).
  exact (attempt_nonneg w url 4200 k r Hc Hk).
Qed.

(** X6. A run of the sampler with [n >= 1] attempts cannot be hurried:
    when no request settles at a negative time, it lasts
    [180 * (n - 1)] milliseconds at least, the time of its pauses, since a
    timer never fires before its delay; and the round-trip time of a
    reachable aggregate is not negative. *)
Theorem measureRtt_takes_its_pauses (url : string) (n : Z) (w : World) :
  1 <= n -> causal w ->
  (clock w + inject_Z (180 * (n - 1))
   <= clock (snd (measureRtt url n w)))%Q /\
  forall agg r,
    fst (measureRtt url n w) = Normal agg -> rtt agg = Some r -> 0 <= r.
Proof.
  intros Hn Hc.
  split; [|exact (aggregate_rtt_nonneg url n w Hc)].
  rewrite measureRtt_world.
  destruct (sampling_pace url n (Z.to_nat n) 0 [] w) as (evs & _ & _ & L).
  { intros _. lia. }
  specialize (L Hc).
  replace (Z.of_nat (pred (Z.to_nat n))) with (n - 1) in L by lia.
  exact L.
Qed.

Lemma measureRtt_takes_its_pauses_witness :
  1 <= 3 /\ causal three_answers /\
  (clock three_answers + inject_Z 360
   <= clock (snd (measureRtt "ping" 3 three_answers)))%Q /\
  forall agg r,
    fst (measureRtt "ping" 3 three_answers) = Normal agg -> rtt agg = Some r ->
    0 <= r.
Proof.
  assert (Hn : 1 <= 3) by lia.
  destruct (measureRtt_takes_its_pauses "ping" 3 three_answers Hn
              three_answers_causal) as (Hlow & Hr).
  exact (conj Hn (conj three_answers_causal (conj Hlow Hr))).
Defined.

(** X7. The sampler does not touch the page: a run renders nothing, leaves
    the card as it is and draws no random number. It issues one request
    for each attempt when the url can be parsed, and none when it
    cannot. *)
Theorem measureRtt_leaves_the_page_alone (url : string) (n : Z) (w : World) :
  exists evs,
    trace (snd (measureRtt url n w)) = trace w ++ evs /\
    renders evs = [] /\
    card (snd (measureRtt url n w)) = card w /\
    drawn (snd (measureRtt url n w)) = drawn w /\
    (URL_resolve w url <> None -> requests evs = probes evs) /\
    (URL_resolve w url = None -> requests evs = 0%nat) /\
    fetched (snd (measureRtt url n w)) = (fetched w + requests evs)%nat.
Proof.
  destruct (measureRtt_run url n w) as (w' & evs & E & A & P & R & Q).
  destruct A as (_ & D & C & T & F).
  rewrite E; simpl. exists evs.
  split; [exact T|]. split; [exact R|]. split; [exact C|]. split; [exact D|].
  split; [|split; [|exact F]].
  - intros HU. rewrite Q, P. now destruct (URL_resolve w url).
  - intros HU. now rewrite Q, HU.
Qed.

Lemma measureRtt_leaves_the_page_alone_witness :
  exists evs,
    trace (snd (measureRtt "ping" 3 one_answer)) = trace one_answer ++ evs /\
    renders evs = [] /\
    requests evs = probes evs.
Proof.
  destruct (measureRtt_leaves_the_page_alone "ping" 3 one_answer)
    as (evs & T & R & _ & _ & Q & _).
  exists evs. refine (conj T (conj R (Q _))). discriminate.
Defined.

(* ================================================================= *)
(** ** More on the reduction *)

Lemma sorted_perm_unique (l1 l2 : list Z) :
  StronglySorted Z.le l1 -> StronglySorted Z.le l2 -> Permutation l1 l2 ->
  l1 = l2.
Proof.
  revert l2; induction l1 as [|x l1 IH]; intros l2 H1 H2 Hp.
  - apply Permutation_nil in Hp. now subst.
  - destruct l2 as [|y l2].
    + apply Permutation_sym, Permutation_nil in Hp. discriminate.
    + inversion H1 as [|? ? S1 F1]; subst.
      inversion H2 as [|? ? S2 F2]; subst.
      assert (Hxy : x = y).
      { assert (Hy : In y (x :: l1))
          by (apply (Permutation_in y (Permutation_sym Hp)); now left).
        assert (Hx : In x (y :: l2))
          by (apply (Permutation_in x Hp); now left).
        rewrite Forall_forall in F1, F2.
        destruct Hy as [Hy|Hy]; [congruence|].
        destruct Hx as [Hx|Hx]; [congruence|].
        specialize (F1 y Hy). specialize (F2 x Hx). lia. }
      subst y. f_equal. apply IH; trivial.
      now apply Permutation_cons_inv in Hp.
Qed.

Lemma Array_sort_perm_eq (l l' : list Z) :
  Permutation l l' ->
  JS.Array_sort (fun a b => a - b) l = JS.Array_sort (fun a b => a - b) l'.
Proof.
  intros Hp. apply sorted_perm_unique; try apply Array_sort_sorted.
  rewrite !Array_sort_perm. exact Hp.
Qed.

(** X8. The aggregate does not depend on the order in which the successful
    attempts came: two lists of samples with the same elements reduce to
    the same aggregate, and so do two runs of the sampler whose successful
    round-trip times are the same up to their order. *)
Theorem reduce_ignores_order (l l' : list Z) (url : string) (n : Z) (w1 w2 : World) :
  (Permutation l l' -> reduce l n = reduce l' n) /\
  (Permutation (successful_samples w1 url n) (successful_samples w2 url n) ->
   fst (measureRtt url n w1) = fst (measureRtt url n w2)).
Proof.
  assert (H : forall a b, Permutation a b -> reduce a n = reduce b n).
  { intros a b Hp. unfold reduce.
    destruct a as [|x a].
    - apply Permutation_nil in Hp. now subst.
    - destruct b as [|y b].
      + apply Permutation_sym, Permutation_nil in Hp. discriminate.
      + now rewrite (Array_sort_perm_eq _ _ Hp). }
  split; [apply H|].
  intros Hp.
  destruct (measureRtt_run url n w1) as (w1' & e1 & E1 & _).
  destruct (measureRtt_run url n w2) as (w2' & e2 & E2 & _).
  rewrite E1, E2; simpl. f_equal. now apply H.
Qed.

Lemma reduce_ignores_order_witness :
  Permutation [220; 90; 310] [310; 220; 90] /\
  reduce [220; 90; 310] 3 = reduce [310; 220; 90] 3.
Proof.
  assert (Hp : Permutation [220; 90; 310] [310; 220; 90]).
  { apply Permutation_sym. apply (Permutation_cons_app [220; 90] [] 310).
    rewrite app_nil_r. reflexivity. }
  split; [exact Hp|].
  destruct (reduce_ignores_order [220; 90; 310] [310; 220; 90] "ping" 3
              three_answers three_answers) as (H & _).
  exact (H Hp).
Defined.

Lemma count_perm (p : Z -> bool) (l l' : list Z) :
  Permutation l l' -> count p l = count p l'.
Proof.
  unfold count. induction 1 as [| x l l' _ IH | x y l | l l' l'' _ IH1 _ IH2];
    simpl; try reflexivity.
  - destruct (p x); simpl; now rewrite IH.
  - destruct (p x), (p y); reflexivity.
  - now rewrite IH1.
Qed.

Lemma count_all (p : Z -> bool) (l : list Z) :
  Forall (fun x => p x = true) l -> count p l = List.length l.
Proof.
  unfold count. induction 1 as [|x l Hx _ IH]; simpl; [reflexivity|].
  rewrite Hx. simpl. now rewrite IH.
Qed.

Lemma count_app (p : Z -> bool) (a b : list Z) :
  count p (a ++ b) = (count p a + count p b)%nat.
Proof. unfold count. now rewrite filter_app, length_app. Qed.

Lemma sorted_prefix_below (l1 l2 : list Z) (m : Z) :
  StronglySorted Z.le (l1 ++ m :: l2) -> Forall (fun x => x <= m) l1.
Proof.
  induction l1 as [|x l1 IH]; simpl; intros H; [constructor|].
  inversion H as [|? ? Hs Hall]; subst. constructor.
  - rewrite Forall_forall in Hall. apply Hall, in_elt.
  - now apply IH.
Qed.

(** X9. The round-trip time of a reachable aggregate is a median of the
    successful samples: more than half of them are not above it and at
    least half of them are not below it. *)
Theorem reduce_is_a_median (l : list Z) (n : Z) :
  l <> [] ->
  exists m,
    rtt (reduce l n) = Some m /\
    (List.length l < 2 * count (fun x => (x <=? m)%Z) l)%nat /\
    (List.length l <= 2 * count (fun x => (m <=? x)%Z) l)%nat.
Proof.
  intros Hl. destruct (reduce_some l n Hl) as (m & Hr & Hn & _).
  exists m. split; [now rewrite Hr|].
  set (sorted := JS.Array_sort (fun a b => a - b) l) in *.
  rewrite <- !(count_perm _ _ _ (Array_sort_perm l)). fold sorted.
  rewrite <- (Array_sort_length l). fold sorted.
  pose proof (Array_sort_sorted l) as Hs. fold sorted in Hs.
  assert (Hk : List.length l = List.length sorted)
    by (symmetry; apply Array_sort_length).
  rewrite Hk in Hn.
  destruct (nth_error_split _ _ Hn) as (l1 & l2 & Hsplit & Hlen).
  rewrite Hsplit in *. clearbody sorted. clear Hsplit.
  pose proof (sorted_prefix_below l1 l2 m Hs) as Hlow.
  apply sorted_suffix in Hs. inversion Hs as [|? ? _ Hhigh]; subst.
  rewrite !count_app.
  assert (C1 : count (fun x => (x <=? m)%Z) l1 = List.length l1).
  { apply count_all. eapply Forall_impl; [|exact Hlow].
    intros x Hx. now apply Z.leb_le. }
  assert (C2 : count (fun x => (m <=? x)%Z) (m :: l2) = List.length (m :: l2)).
  { apply count_all. constructor; [apply Z.leb_refl|].
    eapply Forall_impl; [|exact Hhigh]. intros x Hx. now apply Z.leb_le. }
  assert (C3 : (1 <= count (fun x => (x <=? m)%Z) (m :: l2))%nat).
  { unfold count; simpl. rewrite Z.leb_refl. simpl. lia. }
  rewrite C1, C2. rewrite length_app in *. simpl List.length in *.
  set (len := (List.length l1 + S (List.length l2))%nat) in *.
  assert (Hdiv : (len < 2 * (len / 2) + 2)%nat).
  { pose proof (Nat.div_mod_eq len 2).
    pose proof (Nat.mod_upper_bound len 2). lia. }
  assert (Hdiv2 : (2 * (len / 2) <= len)%nat)
    by (apply Nat.Div0.mul_div_le).
  subst len. lia.
Qed.

Lemma reduce_is_a_median_witness :
  [100; 300] <> [] /\
  exists m,
    rtt (reduce [100; 300] 2) = Some m /\
    (List.length [100; 300]%Z
     < 2 * count (fun x => (x <=? m)%Z) [100; 300]%Z)%nat /\
    (List.length [100; 300]%Z
     <= 2 * count (fun x => (m <=? x)%Z) [100; 300]%Z)%nat.
Proof.
  assert (H : [100; 300] <> []) by discriminate.
  exact (conj H (reduce_is_a_median [100; 300] 2 H)).
Defined.

(* ================================================================= *)
(** ** The card handler as a whole *)

Lemma verdict_terminal (fast slow : Z) (result : AggregateResult) :
  verdict fast slow result <> checking.
Proof.
  unfold verdict.
  destruct (negb (reachable result)), (JS.lt (rtt result) fast),
    (JS.le (rtt result) slow); discriminate.
Qed.

(** The classifier is one call of [setPingState], after one random draw
    when the state is [warn]. *)
Lemma classify_as_render (fast slow : Z) (result : AggregateResult) (w : World) :
  exists valueText w0,
    classify fast slow result w
    = setPingState (verdict fast slow result) valueText w0 /\
    card w0 = card w /\ trace w0 = trace w /\ fetched w0 = fetched w /\
    drawn w0 = match verdict fast slow result with
               | warn => S (drawn w)
               | _ => drawn w
               end.
Proof.
  unfold classify, verdict.
  destruct (negb (reachable result));
    [|destruct (JS.lt (rtt result) fast);
      [|destruct (JS.le (rtt result) slow)]].
  1, 2, 4: eexists _, w; repeat split; reflexivity.
  unfold randomWarnPing, Math_random, bind, ret. cbv beta iota.
  eexists _, (set_drawn (S (drawn w)) w). repeat split; reflexivity.
Qed.

(** The handler is some probing, which renders nothing, and then one call
    of [setPingState] with a terminal state. *)
Lemma handler_as_render (fast slow : Z) (w : World) :
  exists s valueText w0 evs0,
    pingCard_handler_with fast slow w = setPingState s valueText w0 /\
    s <> checking /\
    card w0 = card w /\
    trace w0 = trace w ++ evs0 /\
    renders evs0 = [] /\
    (probes evs0 = 0%nat \/ probes evs0 = 3%nat) /\
    (requests evs0 <= probes evs0)%nat /\
    fetched w0 = (fetched w + requests evs0)%nat /\
    drawn w0 = match s with warn => S (drawn w) | _ => drawn w end.
Proof.
  unfold pingCard_handler_with. unfold bind at 1. unfold gets.
  assert (Hidle : exists s valueText w0 evs0,
             setPingState down "недоступен" w = setPingState s valueText w0 /\
             s <> checking /\ card w0 = card w /\ trace w0 = trace w ++ evs0 /\
             renders evs0 = [] /\
             (probes evs0 = 0%nat \/ probes evs0 = 3%nat) /\
             (requests evs0 <= probes evs0)%nat /\
             fetched w0 = (fetched w + requests evs0)%nat /\
             drawn w0 = match s with warn => S (drawn w) | _ => drawn w end).
  { exists down, "недоступен"%string, w, [].
    rewrite app_nil_r. unfold probes, requests; simpl.
    rewrite Nat.add_0_r. repeat split; auto. discriminate. }
  destruct (pingUrl (card w)) as [url|]; [|exact Hidle].
  destruct (String.eqb url EmptyString); [exact Hidle|].
  destruct (measureRtt_run url 3 w) as (w1 & evs & E & A & P & R & Q).
  destruct A as ((_ & HU & _) & D & C & T & F).
  unfold bind. rewrite E.
  destruct (classify_as_render fast slow
              (reduce (successes (attempts w url (Z.to_nat 3))) 3) w1)
    as (v & w0 & Ec & Cc & Tc & Fc & Dc).
  exists (verdict fast slow (reduce (successes (attempts w url (Z.to_nat 3))) 3)),
    v, w0, evs.
  split; [exact Ec|]. split; [apply verdict_terminal|].
  split; [congruence|]. split; [congruence|]. split; [exact R|].
  split; [right; exact P|].
  split; [rewrite Q, P; destruct (URL_resolve w url); simpl; lia|].
  split; [congruence|].
  rewrite Dc, D. reflexivity.
Qed.

(** X10. The handler of a card never throws and ends by one call of
    [setPingState], its only one, with a state that is not [checking].
    Before that call it has made either no probe or 3 probes, and at most
    one request for each probe; it draws one random number when the state
    is [warn] and none otherwise. *)
Theorem pingCard_handler_renders_once (w : World) :
  exists w' evs0 s valueText,
    pingCard_handler w = (Normal tt, w') /\
    trace w' = trace w ++ evs0 ++ [EvSetPingState s valueText] /\
    renders evs0 = [] /\
    s <> checking /\
    (probes evs0 = 0%nat \/ probes evs0 = 3%nat) /\
    (requests evs0 <= probes evs0)%nat /\
    drawn w' = match s with warn => S (drawn w) | _ => drawn w end.
Proof.
  destruct (handler_as_render 150 700 w)
    as (s & v & w0 & evs0 & E & Hs & _ & T & R & P & Q & _ & D).
  destruct (setPingState_run s v w0) as (w' & E' & T' & _ & _ & D' & _).
  exists w', evs0, s, v. unfold pingCard_handler. rewrite E.
  split; [exact E'|].
  split; [now rewrite T', T, app_assoc|].
  split; [exact R|]. split; [exact Hs|]. split; [exact P|].
  split; [exact Q|]. congruence.
Qed.

(** X11. On a card that has both child elements, the [checking] pass
    followed by the handler leaves the card as one call of [setPingState]
    with the terminal state would leave the original card: the status
    element has the class of the terminal state, no other status class
    ([status--checking] is gone) and its other classes; the value element
    has the text rendered last. The two calls of [setPingState] are the
    only ones. *)
Theorem pingCard_lifecycle_shows_terminal_status
    (w : World) (classes : list string) (old : string) :
  statusEl (card w) = Some classes -> valueEl (card w) = Some old ->
  exists w' evs s valueText classes',
    pingCard_lifecycle w = (Normal tt, w') /\
    trace w' = trace w ++ evs /\
    renders evs = [(checking, "измеряем..."%string); (s, valueText)] /\
    s <> checking /\
    card w' = {| pingUrl := pingUrl (card w); statusEl := Some classes';
                 valueEl := Some valueText |} /\
    (forall c, In c classes' <->
               c = state_class s \/ (In c classes /\ ~ In c status_classes)) /\
    ~ In "status--checking"%string classes'.
Proof.
  intros Hst Hval. unfold pingCard_lifecycle, bind.
  destruct (setPingState_run checking "измеряем..." w)
    as (w1 & E1 & T1 & _).
  pose proof (setPingState_card checking "измеряем..." w) as C1.
  rewrite E1 in C1 |- *. cbn [snd] in C1. rewrite Hst, Hval in C1.
  destruct (handler_as_render 150 700 w1)
    as (s & v & w0 & evs0 & E & Hs & C0 & T0 & R & _).
  destruct (setPingState_run s v w0) as (w' & E' & T' & _).
  pose proof (setPingState_card s v w0) as C'.
  rewrite E' in C'. cbn [snd] in C'. rewrite C0, C1 in C'.
  cbn [statusEl valueEl pingUrl] in C'.
  rewrite remove_status_twice in C'.
  unfold pingCard_handler. rewrite E, E'.
  exists w', (EvSetPingState checking "измеряем..." :: evs0
              ++ [EvSetPingState s v]), s, v.
  eexists.
  split; [reflexivity|].
  split; [rewrite T', T0, T1; now rewrite <- !app_assoc|].
  split; [simpl; now rewrite renders_app, R|].
  split; [exact Hs|].
  split; [exact C'|].
  assert (Hmem : forall c,
             In c (classList_add (state_class s)
                     (classList_remove status_classes classes)) <->
             c = state_class s \/ (In c classes /\ ~ In c status_classes)).
  { intros c. now rewrite classList_add_In, classList_remove_In. }
  split; [exact Hmem|].
  intros Hin. apply Hmem in Hin. destruct Hin as [Heq | [_ Hno]].
  - destruct s; simpl in Heq; congruence.
  - apply Hno. simpl. auto.
Qed.

Lemma pingCard_lifecycle_shows_terminal_status_witness :
  exists w' evs s valueText classes',
    pingCard_lifecycle three_answers = (Normal tt, w') /\
    trace w' = trace three_answers ++ evs /\
    renders evs = [(checking, "измеряем..."%string); (s, valueText)] /\
    s <> checking /\
    card w' = {| pingUrl := Some "ping"%string; statusEl := Some classes';
                 valueEl := Some valueText |} /\
    ~ In "status--checking"%string classes'.
Proof.
  destruct (pingCard_lifecycle_shows_terminal_status three_answers
              ["status"; "status--checking"]%string "измеряем..."%string
              eq_refl eq_refl)
    as (w' & evs & s & v & classes' & E & T & R & Hs & C & _ & Hno).
  exists w', evs, s, v, classes'.
  exact (conj E (conj T (conj R (conj Hs (conj C Hno))))).
Defined.

(* ================================================================= *)
(** ** The typewriter *)

Section TypewriterFacts.

Import Typewriter.

Variable ws : list (list string).

Lemma at_index_bounds {A : Type} (l : list A) (i : Z) (x : A) :
  at_index l i = Some x -> 0 <= i < Z.of_nat (List.length l).
Proof.
  unfold at_index. destruct (Z.ltb_spec i 0) as [Hneg|Hpos]; [discriminate|].
  intros Hx. assert (Hn : nth_error l (Z.to_nat i) <> None) by congruence.
  apply nth_error_Some in Hn. lia.
Qed.

Lemma at_index_defined {A : Type} (l : list A) (i : Z) :
  0 <= i < Z.of_nat (List.length l) -> exists x, at_index l i = Some x.
Proof.
  intros Hi. unfold at_index. destruct (Z.ltb_spec i 0); [lia|].
  destruct (nth_error l (Z.to_nat i)) eqn:E; [eauto|].
  apply nth_error_None in E. lia.
Qed.

Lemma slice0_prefix (s : list string) (c : Z) :
  0 <= c <= Z.of_nat (List.length s) -> slice0 s c = firstn (Z.to_nat c) s.
Proof.
  intros Hc. unfold slice0. destruct (Z.ltb_spec c 0); [lia|].
  now rewrite Z.min_l by lia.
Qed.

(** One step from a state in range: it does not throw, shows the first
    [charIndex] letters of the current word and leaves a state in range. *)
Lemma step_in_range (t : State) :
  in_range ws t ->
  exists t' d current,
    step ws t = Some (t', d) /\
    at_index ws (wordIndex t) = Some current /\
    textContent t' = firstn (Z.to_nat (charIndex t)) current /\
    in_range ws t'.
Proof.
  intros (current & Hcur & Hc).
  pose proof (at_index_bounds ws _ _ Hcur) as Hw.
  unfold step. rewrite Hcur.
  destruct (deleting t) eqn:Hdel; simpl.
  - destruct (Z.ltb_spec 0 (charIndex t)) as [Hpos|Hzero].
    + eexists _, _, current. split; [reflexivity|].
      split; [reflexivity|]. split; [simpl; apply slice0_prefix, Hc|].
      exists current. simpl. split; [exact Hcur | lia].
    + destruct (at_index_defined ws
                  (Z.rem (wordIndex t + 1) (Z.of_nat (List.length ws))))
        as (next & Hnext).
      { apply Z.rem_bound_pos; lia. }
      eexists _, _, current. split; [reflexivity|].
      split; [reflexivity|]. split; [simpl; apply slice0_prefix, Hc|].
      exists next. simpl. split; [exact Hnext | lia].
  - destruct (Z.ltb_spec (charIndex t) (Z.of_nat (List.length current)))
      as [Hless|Hfull].
    + eexists _, _, current. split; [reflexivity|].
      split; [reflexivity|]. split; [simpl; apply slice0_prefix, Hc|].
      exists current. simpl. split; [exact Hcur | lia].
    + destruct (Z.leb_spec (Z.of_nat (List.length current)) (charIndex t));
        [|lia].
      eexists _, _, current. split; [reflexivity|].
      split; [reflexivity|]. split; [simpl; apply slice0_prefix, Hc|].
      exists current. simpl. split; [exact Hcur | lia].
Qed.

Lemma run_in_range (n : nat) :
  forall t, in_range ws t ->
            exists t' d, run ws n t = Some (t', d) /\ in_range ws t'.
Proof.
  induction n as [|n IH]; intros t Ht.
  - exists t, 0. now split.
  - destruct (step_in_range t Ht) as (t1 & d & _ & E & _ & _ & H1).
    destruct (IH t1 H1) as (t2 & d' & E' & H2).
    exists t2, (d + d'). simpl. now rewrite E, E'.
Qed.

Lemma run_app (a b : nat) (t : State) :
  run ws (a + b) t
  = match run ws a t with
    | Some (t1, d1) =>
        match run ws b t1 with
        | Some (t2, d2) => Some (t2, d1 + d2)
        | None => None
        end
    | None => None
    end.
Proof.
  revert t; induction a as [|a IH]; intros t; simpl.
  - destruct (run ws b t) as [[t2 d2]|]; reflexivity.
  - destruct (step ws t) as [[t1 d]|]; [|reflexivity].
    rewrite IH. destruct (run ws a t1) as [[t2 d1]|]; [|reflexivity].
    destruct (run ws b t2) as [[t3 d2]|]; [|reflexivity].
    now rewrite Z.add_assoc.
Qed.

Lemma shows_app (a b : nat) (t : State) :
  shows ws (a + b) t
  = shows ws a t ++ match run ws a t with
                    | Some (t1, _) => shows ws b t1
                    | None => []
                    end.
Proof.
  revert t; induction a as [|a IH]; intros t; simpl; [reflexivity|].
  destruct (step ws t) as [[t1 d]|]; [|reflexivity].
  rewrite IH. simpl. destruct (run ws a t1) as [[t2 d1]|]; reflexivity.
Qed.

(** Typing: from the first [c] letters of a word to the whole word and the
    pause that follows. *)
Lemma typing (i : Z) (current : list string) (k : nat) :
  at_index ws i = Some current ->
  forall (c : nat) shown,
    (c + k)%nat = List.length current ->
    run ws (S k) {| wordIndex := i; charIndex := Z.of_nat c; deleting := false;
                    textContent := shown |}
    = Some (held ws i, 62 * Z.of_nat k + 2400) /\
    shows ws (S k) {| wordIndex := i; charIndex := Z.of_nat c; deleting := false;
                      textContent := shown |}
    = map (fun n => firstn n current) (seq c (S k)).
Proof.
  intros Hcur. induction k as [|k IH]; intros c shown Hk.
  - cbn [run shows]. unfold step. cbn [wordIndex charIndex deleting].
    rewrite Hcur. cbn [negb andb].
    destruct (Z.ltb_spec (Z.of_nat c) (Z.of_nat (List.length current))); [lia|].
    destruct (Z.leb_spec (Z.of_nat (List.length current)) (Z.of_nat c)); [|lia].
    cbn [textContent map seq].
    rewrite slice0_prefix, Nat2Z.id by lia.
    replace c with (List.length current) by lia.
    rewrite firstn_all. unfold held, word_length, word. rewrite Hcur.
    split; reflexivity.
  - destruct (IH (S c) (slice0 current (Z.of_nat c))) as (Er & Es); [lia|].
    replace (Z.of_nat (S c)) with (Z.of_nat c + 1) in Er, Es by lia.
    remember (S k) as k1.
    cbn [run shows]. unfold step. cbn [wordIndex charIndex deleting].
    rewrite Hcur. cbn [negb andb].
    destruct (Z.ltb_spec (Z.of_nat c) (Z.of_nat (List.length current))); [|lia].
    rewrite Er, Es. cbn [textContent].
    rewrite slice0_prefix, Nat2Z.id by lia.
    split; [do 2 f_equal; lia|].
    subst k1. reflexivity.
Qed.

(** Erasing: from the first [k] letters of a word down to the empty text,
    and the turn to the next word. *)
Lemma erasing (i : Z) (current : list string) (k : nat) :
  at_index ws i = Some current ->
  (k <= List.length current)%nat ->
  forall shown,
    run ws (S k) {| wordIndex := i; charIndex := Z.of_nat k; deleting := true;
                    textContent := shown |}
    = Some ({| wordIndex := next ws i; charIndex := 0; deleting := false;
               textContent := [] |},
            36 * Z.of_nat k + 360) /\
    shows ws (S k) {| wordIndex := i; charIndex := Z.of_nat k; deleting := true;
                      textContent := shown |}
    = map (fun n => firstn n current) (rev (seq 0 (S k))).
Proof.
  intros Hcur. induction k as [|k IH]; intros Hk shown.
  - cbn [run shows]. unfold step. cbn [wordIndex charIndex deleting].
    rewrite Hcur. change (Z.of_nat 0) with 0.
    cbn [negb andb Z.ltb Z.compare textContent].
    rewrite slice0_prefix by lia. split; reflexivity.
  - destruct (IH ltac:(lia) (slice0 current (Z.of_nat (S k)))) as (Er & Es).
    rewrite seq_S, rev_app_distr. cbn [rev app map Nat.add].
    remember (S k) as k1.
    cbn [run shows]. unfold step. cbn [wordIndex charIndex deleting].
    rewrite Hcur. cbn [negb andb].
    destruct (Z.ltb_spec 0 (Z.of_nat k1)); [|lia].
    replace (Z.of_nat k1 - 1) with (Z.of_nat k) by lia.
    rewrite Er, Es. cbn [textContent].
    rewrite slice0_prefix, Nat2Z.id by lia.
    split; [do 2 f_equal; lia | reflexivity].
Qed.

(** From a word held to the next word held. *)
Lemma next_word (i : Z) :
  0 <= i < Z.of_nat (List.length ws) ->
  run ws (lap ws i) (held ws i) = Some (held ws (next ws i), lap_delay ws i) /\
  shows ws (lap ws i) (held ws i) = lap_texts ws i.
Proof.
  intros Hi. unfold lap, lap_delay, lap_texts, prefixes_down, prefixes_up.
  set (j := next ws i).
  destruct (at_index_defined ws i Hi) as (cur & Hcur).
  destruct (at_index_defined ws j) as (nxt & Hnxt).
  { apply Z.rem_bound_pos; lia. }
  unfold held at 1 3. unfold word_length, word. rewrite Hcur, Hnxt.
  set (a := List.length cur). set (b := List.length nxt).
  replace (Z.to_nat (Z.of_nat a + Z.of_nat b + 2)) with (S a + S b)%nat by lia.
  destruct (erasing i cur a Hcur (Nat.le_refl a) cur) as (Er & Es).
  destruct (typing j nxt b Hnxt 0%nat [] eq_refl) as (Tr & Ts).
  fold j in Er. change (Z.of_nat 0) with 0 in Tr, Ts.
  rewrite run_app, shows_app, Er, Es, Tr, Ts.
  split; [do 2 f_equal; lia | reflexivity].
Qed.

(** The first step shows the first word, whole. *)
Lemma first_word (shown : list string) (t0 : State) :
  start ws shown = Some t0 ->
  run ws 1 t0 = Some (held ws 0, 2400) /\ shows ws 1 t0 = [word ws 0].
Proof.
  unfold start. destruct (at_index ws 0) as [first|] eqn:Hfirst; [|discriminate].
  intros H; injection H as <-.
  destruct (typing 0 first 0 Hfirst (List.length first) shown) as (Tr & Ts);
    [lia|].
  rewrite Tr, Ts. cbn [map seq]. rewrite firstn_all.
  unfold word. rewrite Hfirst. split; reflexivity.
Qed.

Lemma turn_next (k : nat) :
  (0 < List.length ws)%nat -> next ws (turn ws k) = turn ws (S k).
Proof.
  intros Hlen. unfold next, turn.
  set (n := Z.of_nat (List.length ws)).
  rewrite Z.rem_mod_nonneg.
  - rewrite Z.add_mod_idemp_l by lia. f_equal. lia.
  - pose proof (Z.mod_pos_bound (Z.of_nat k) n). lia.
  - lia.
Qed.

(** The run from the start to the [k]-th word held. *)
Lemma to_word (shown : list string) (t0 : State) (k : nat) :
  start ws shown = Some t0 ->
  run ws (steps_to ws k) t0 = Some (held ws (turn ws k), delay_to ws k) /\
  shows ws (steps_to ws k) t0 = texts_to ws k.
Proof.
  intros Hstart.
  assert (Hlen : (0 < List.length ws)%nat).
  { unfold start in Hstart.
    destruct (at_index ws 0) as [first|] eqn:Hfirst; [|discriminate].
    pose proof (at_index_bounds ws 0 first Hfirst). lia. }
  induction k as [|k (Er & Es)].
  - cbn [steps_to delay_to texts_to]. unfold turn.
    rewrite Z.mod_0_l by lia. exact (first_word shown t0 Hstart).
  - cbn [steps_to delay_to texts_to].
    destruct (next_word (turn ws k)) as (Nr & Ns).
    { unfold turn. apply Z.mod_pos_bound. lia. }
    rewrite (turn_next k Hlen) in Nr.
    rewrite run_app, shows_app, Er, Es, Nr, Ns. split; reflexivity.
Qed.

End TypewriterFacts.

Lemma start_in_range (ws : list (list string)) (shown : list string)
    (t0 : Typewriter.State) :
  Typewriter.start ws shown = Some t0 -> Typewriter.in_range ws t0.
Proof.
  unfold Typewriter.start.
  destruct (Typewriter.at_index ws 0) as [first|] eqn:E; [|discriminate].
  intros H; injection H as <-. exists first. simpl. split; [exact E | lia].
Qed.

(** X12. Started as the page starts it, over any list of words with a
    first word, the typewriter never throws: after any number of steps the
    word index still names a word of the list and the character index is a
    position of that word, and the next step shows the first [charIndex]
    letters of that word. *)
Theorem typewriter_stays_in_range
    (ws : list (list string)) (shown : list string) (t0 : Typewriter.State)
    (n : nat) :
  Typewriter.start ws shown = Some t0 ->
  exists t d,
    Typewriter.run ws n t0 = Some (t, d) /\
    Typewriter.in_range ws t /\
    exists t' d' current,
      Typewriter.step ws t = Some (t', d') /\
      Typewriter.at_index ws (Typewriter.wordIndex t) = Some current /\
      Typewriter.textContent t'
      = firstn (Z.to_nat (Typewriter.charIndex t)) current.
Proof.
  intros Hstart.
  destruct (run_in_range ws n t0 (start_in_range ws shown t0 Hstart))
    as (t & d & E & Hr).
  exists t, d. split; [exact E|]. split; [exact Hr|].
  destruct (step_in_range ws t Hr) as (t' & d' & current & Es & Hc & Ht & _).
  now exists t', d', current.
Qed.

Lemma typewriter_stays_in_range_witness :
  exists t0 t d,
    Typewriter.start Typewriter.words [] = Some t0 /\
    Typewriter.run Typewriter.words 14 t0 = Some (t, d) /\
    Typewriter.in_range Typewriter.words t.
Proof.
  destruct (Typewriter.start Typewriter.words []) as [t0|] eqn:E;
    [|vm_compute in E; discriminate].
  destruct (typewriter_stays_in_range Typewriter.words [] t0 14 E)
    as (t & d & R & Hr & _).
  exists t0, t, d. exact (conj eq_refl (conj R Hr)).
Defined.

(** X13. The delay a step hands to the timer is 62, 2400, 36 or 360 ms:
    the value 40 the variable starts with when [deleting] holds is always
    overwritten. The pause of 2400 ms comes exactly with the step that
    turns [deleting] on, and the pause of 360 ms exactly with the step
    that turns it off. *)
Theorem typewriter_delays
    (ws : list (list string)) (t t' : Typewriter.State) (d : Z) :
  Typewriter.step ws t = Some (t', d) ->
  In d [62; 2400; 36; 360] /\
  d <> 40 /\
  (d = 2400 <-> Typewriter.deleting t = false /\ Typewriter.deleting t' = true) /\
  (d = 360 <-> Typewriter.deleting t = true /\ Typewriter.deleting t' = false).
Proof.
  unfold Typewriter.step.
  destruct (Typewriter.at_index ws (Typewriter.wordIndex t)) as [current|];
    [|discriminate].
  destruct (Typewriter.deleting t) eqn:Hdel; cbn [negb andb].
  - destruct (0 <? Typewriter.charIndex t);
      intros H; injection H as <- <-; simpl; rewrite ?Hdel;
      intuition (try discriminate; try lia).
  - destruct (Z.ltb_spec (Typewriter.charIndex t)
                (Z.of_nat (List.length current))) as [Hlt|Hge];
      [|destruct (Z.leb_spec (Z.of_nat (List.length current))
                    (Typewriter.charIndex t)) as [Hle|Hgt]; [|lia]];
      intros Hs; injection Hs as <- <-; simpl; rewrite ?Hdel;
      intuition (try discriminate; try lia).
Qed.

Lemma typewriter_delays_witness :
  exists t0 t' d,
    Typewriter.start Typewriter.words [] = Some t0 /\
    Typewriter.step Typewriter.words t0 = Some (t', d) /\
    In d [62; 2400; 36; 360] /\ d <> 40.
Proof.
  destruct (Typewriter.start Typewriter.words []) as [t0|] eqn:E;
    [|vm_compute in E; discriminate].
  destruct (Typewriter.step Typewriter.words t0) as [[t' d]|] eqn:Es;
    [|vm_compute in E; injection E as <-; vm_compute in Es; discriminate].
  destruct (typewriter_delays Typewriter.words t0 t' d Es) as (Hin & Hno & _).
  exists t0, t', d. exact (conj eq_refl (conj Es (conj Hin Hno))).
Defined.

(** X14. From a word on display in full the typewriter comes to the next
    word of the list (the first one after the last) on display in full,
    in as many steps as the two words have letters, and two more. On the
    way the element shows the word once more, then the word with one
    letter less at each step down to the empty text, then the next word
    with one letter more at each step, from the empty text up to the whole
    word; the delays add up to
    [36 * length + 360 + 62 * length of the next word + 2400]
    milliseconds. *)
Theorem typewriter_next_word (ws : list (list string)) (i : Z) :
  0 <= i < Z.of_nat (List.length ws) ->
  Typewriter.run ws (Typewriter.lap ws i) (Typewriter.held ws i)
  = Some (Typewriter.held ws (Typewriter.next ws i), Typewriter.lap_delay ws i) /\
  Typewriter.shows ws (Typewriter.lap ws i) (Typewriter.held ws i)
  = Typewriter.prefixes_down (Typewriter.word ws i)
    ++ Typewriter.prefixes_up (Typewriter.word ws (Typewriter.next ws i)) /\
  Typewriter.textContent (Typewriter.held ws (Typewriter.next ws i))
  = Typewriter.word ws (Typewriter.next ws i).
Proof.
  intros Hi. destruct (next_word ws i Hi) as (Hr & Hs).
  exact (conj Hr (conj Hs eq_refl)).
Qed.

Lemma typewriter_next_word_witness :
  0 <= 8 < Z.of_nat (List.length Typewriter.words) /\
  Typewriter.run Typewriter.words 23 (Typewriter.held Typewriter.words 8)
  = Some ({| Typewriter.wordIndex := 0; Typewriter.charIndex := 10;
             Typewriter.deleting := true;
             Typewriter.textContent := Typewriter.units "свободному" |},
          3776) /\
  last (Typewriter.shows Typewriter.words 23 (Typewriter.held Typewriter.words 8))
    []
  = Typewriter.units "свободному".
Proof.
  assert (H : 0 <= 8 < Z.of_nat (List.length Typewriter.words))
    by (vm_compute; split; [discriminate | reflexivity]).
  split; [exact H|].
  destruct (typewriter_next_word Typewriter.words 8 H) as (Hr & Hs & _).
  split; [exact Hr|].
  change 23%nat with (Typewriter.lap Typewriter.words 8).
  rewrite Hs. vm_compute. reflexivity.
Defined.

(** X15. The words are shown in the order of the list, round and round.
    Started as the page starts it, the typewriter shows the first word in
    full at its first step, and for every [k] it has the word of index
    [k mod length] on display in full after [steps_to k] steps, a number
    that grows with [k]; the texts shown up to there are the first word,
    then for each word before the [k]-th its erasure followed by the
    typing of its successor, and nothing else. *)
Theorem typewriter_types_every_word
    (ws : list (list string)) (shown : list string) (t0 : Typewriter.State)
    (k : nat) :
  Typewriter.start ws shown = Some t0 ->
  Typewriter.run ws (Typewriter.steps_to ws k) t0
  = Some ({| Typewriter.wordIndex := Z.of_nat k mod Z.of_nat (List.length ws);
             Typewriter.charIndex :=
               Typewriter.word_length ws
                 (Z.of_nat k mod Z.of_nat (List.length ws));
             Typewriter.deleting := true;
             Typewriter.textContent :=
               Typewriter.word ws (Z.of_nat k mod Z.of_nat (List.length ws)) |},
          Typewriter.delay_to ws k) /\
  Typewriter.shows ws (Typewriter.steps_to ws k) t0 = Typewriter.texts_to ws k /\
  last (Typewriter.texts_to ws k) []
  = Typewriter.word ws (Z.of_nat k mod Z.of_nat (List.length ws)) /\
  (Typewriter.steps_to ws k < Typewriter.steps_to ws (S k))%nat.
Proof.
  intros Hstart.
  destruct (to_word ws shown t0 k Hstart) as (Hr & Hs).
  split; [exact Hr|]. split; [exact Hs|].
  split.
  - destruct k as [|k]; [reflexivity|].
    cbn [Typewriter.texts_to]. unfold Typewriter.lap_texts.
    rewrite app_assoc. unfold Typewriter.prefixes_up.
    rewrite seq_S, map_app. cbn [map Nat.add].
    rewrite app_assoc, last_last, firstn_all.
    f_equal. apply turn_next.
    unfold Typewriter.start in Hstart.
    destruct (Typewriter.at_index ws 0) as [first|] eqn:Hfirst; [|discriminate].
    pose proof (at_index_bounds ws 0 first Hfirst). lia.
  - cbn [Typewriter.steps_to]. unfold Typewriter.lap.
    assert (H : forall i, 0 <= Typewriter.word_length ws i).
    { intros i. unfold Typewriter.word_length.
      destruct (Typewriter.at_index ws i); lia. }
    pose proof (H (Typewriter.turn ws k)).
    pose proof (H (Typewriter.next ws (Typewriter.turn ws k))).
    lia.
Qed.

Lemma typewriter_types_every_word_witness :
  exists t0,
    Typewriter.start Typewriter.words [] = Some t0 /\
    Typewriter.steps_to Typewriter.words 11 = 243%nat /\
    Typewriter.run Typewriter.words 243 t0
    = Some ({| Typewriter.wordIndex := 2; Typewriter.charIndex := 8;
               Typewriter.deleting := true;
               Typewriter.textContent := Typewriter.units "быстрому" |},
            Typewriter.delay_to Typewriter.words 11).
Proof.
  destruct (Typewriter.start Typewriter.words []) as [t0|] eqn:E;
    [|vm_compute in E; discriminate].
  destruct (typewriter_types_every_word Typewriter.words [] t0 11 E)
    as (R & _).
  assert (Hs : Typewriter.steps_to Typewriter.words 11 = 243%nat)
    by (vm_compute; reflexivity).
  rewrite Hs in R.
  exists t0. exact (conj eq_refl (conj Hs R)).
Defined.

(* ================================================================= *)
(** ** The site script: the floating navigation bar and the FAQ *)

Lemma classList_add_twice (token : string) (classes : list string) :
  classList_add token (classList_add token classes) = classList_add token classes.
Proof.
  unfold classList_add at 1.
  assert (H : existsb (String.eqb token) (classList_add token classes) = true).
  { apply existsb_exists. exists token. split; [|apply String.eqb_refl].
    apply classList_add_In. now left. }
  now rewrite H.
Qed.

(** X16. After [handleScroll] the navigation bar has the class
    [nav--floating] exactly when the page is scrolled by more than 12
    pixels; its other classes are as they were; calling it again at the
    same scroll position changes nothing; and without a navigation bar
    it does nothing. *)
Theorem handleScroll_floats_past_12 (classes : list string) (scrollY : Q) :
  exists classes',
    Site.handleScroll (Some classes) scrollY = Some classes' /\
    (In "nav--floating"%string classes' <-> (12 # 1 < scrollY)%Q) /\
    (forall c, c <> "nav--floating"%string -> (In c classes' <-> In c classes)) /\
    Site.handleScroll (Some classes') scrollY = Some classes' /\
    Site.handleScroll None scrollY = None.
Proof.
  unfold Site.handleScroll, Site.classList_toggle.
  destruct (JS.Qltb (12 # 1) scrollY) eqn:E.
  - eexists. split; [reflexivity|].
    apply Qltb_lt in E.
    split; [|split; [|split]].
    + rewrite classList_add_In. tauto.
    + intros c Hc. rewrite classList_add_In. tauto.
    + now rewrite classList_add_twice.
    + reflexivity.
  - eexists. split; [reflexivity|].
    assert (Hnot : ~ (12 # 1 < scrollY)%Q).
    { intros H. apply Qltb_lt in H. congruence. }
    split; [|split; [|split]].
    + rewrite classList_remove_In. simpl. tauto.
    + intros c Hc. rewrite classList_remove_In. simpl. intuition congruence.
    + now rewrite classList_remove_idem.
    + reflexivity.
Qed.

Lemma nth_close_others (current : nat) (faqItems : list bool) :
  forall position j,
    nth j (Site.close_others current position faqItems) false
    = if Nat.eqb (position + j) current then nth j faqItems false else false.
Proof.
  induction faqItems as [|open rest IH]; intros position j; simpl.
  - destruct j; now destruct (Nat.eqb _ current).
  - destruct j as [|j].
    + rewrite Nat.add_0_r. reflexivity.
    + rewrite IH. now rewrite Nat.add_succ_r.
Qed.

Lemma open_close_others (current : nat) (faqItems : list bool) :
  forall position,
    Site.open_items (Site.close_others current position faqItems)
    = if (position <=? current)%nat && nth (current - position) faqItems false
      then 1%nat else 0%nat.
Proof.
  unfold Site.open_items.
  induction faqItems as [|open rest IH]; intros position; simpl.
  - destruct (current - position)%nat; now rewrite andb_false_r.
  - specialize (IH (S position)).
    destruct (Nat.eqb_spec position current) as [->|Hne].
    + rewrite Nat.leb_refl, Nat.sub_diag; simpl.
      rewrite (proj2 (Nat.leb_gt _ _)) in IH by lia. simpl in IH.
      destruct open; simpl; now rewrite IH.
    + simpl. rewrite IH.
      destruct (Nat.leb_spec position current) as [Hle|Hgt].
      * rewrite (proj2 (Nat.leb_le (S position) current)) by lia.
        replace (current - position)%nat with (S (current - S position)) by lia.
        reflexivity.
      * rewrite (proj2 (Nat.leb_gt _ _)) by lia. reflexivity.
Qed.

Lemma length_close_others (current : nat) (faqItems : list bool) :
  forall position,
    List.length (Site.close_others current position faqItems)
    = List.length faqItems.
Proof.
  induction faqItems as [|open rest IH]; intros position; simpl;
    [reflexivity | now rewrite IH].
Qed.

(** X17. The FAQ is an accordion: when the [toggle] listener of an item
    runs and the item is open, that item stays open, every other item is
    closed, and so exactly one item is open; when the item is closed the
    listener changes nothing. *)
Theorem faq_is_an_accordion (item : nat) (faqItems : list bool) :
  (nth item faqItems false = true ->
   nth item (Site.on_toggle item faqItems) false = true /\
   (forall j, j <> item -> nth j (Site.on_toggle item faqItems) false = false) /\
   Site.open_items (Site.on_toggle item faqItems) = 1%nat /\
   List.length (Site.on_toggle item faqItems) = List.length faqItems) /\
  (nth item faqItems false = false -> Site.on_toggle item faqItems = faqItems).
Proof.
  unfold Site.on_toggle, Site.handleFaqToggle.
  split; intros Hopen; rewrite Hopen; [|reflexivity].
  split; [|split; [|split]].
  - rewrite nth_close_others. simpl. now rewrite Nat.eqb_refl.
  - intros j Hj. rewrite nth_close_others. simpl.
    destruct (Nat.eqb_spec j item); [contradiction | reflexivity].
  - rewrite open_close_others. simpl. now rewrite Nat.sub_0_r, Hopen.
  - apply length_close_others.
Qed.

Lemma faq_is_an_accordion_witness :
  nth 1 [true; true; false; true] false = true /\
  Site.on_toggle 1 [true; true; false; true] = [false; true; false; false] /\
  Site.open_items (Site.on_toggle 1 [true; true; false; true]) = 1%nat /\
  nth 2 [true; true; false; true] false = false /\
  Site.on_toggle 2 [true; true; false; true] = [true; true; false; true].
Proof.
  destruct (faq_is_an_accordion 1 [true; true; false; true]) as (Hopen & _).
  destruct (faq_is_an_accordion 2 [true; true; false; true]) as (_ & Hclosed).
  destruct (Hopen eq_refl) as (_ & _ & Hone & _).
  exact (conj eq_refl (conj eq_refl (conj Hone (conj eq_refl (Hclosed eq_refl))))).
Defined.

(* ================================================================= *)
(** ** The cache-busting parameter *)

Lemma toString_inj (a b : Z) : JS.toString a = JS.toString b -> a = b.
Proof.
  unfold JS.toString. intros H.
  assert (Hnil : forall z, Z.to_int z <> Decimal.Pos Decimal.Nil /\
                           Z.to_int z <> Decimal.Neg Decimal.Nil).
  { intros z. pose proof (DecimalZ.to_of (Z.to_int z)) as Hn.
    rewrite DecimalZ.of_to in Hn.
    split; intros Hz; rewrite Hz in Hn; discriminate. }
  apply DecimalZ.to_int_inj.
  assert (Hs : NilZero.int_of_string (NilZero.string_of_int (Z.to_int a))
               = NilZero.int_of_string (NilZero.string_of_int (Z.to_int b)))
    by now rewrite H.
  rewrite !NilZero.isi in Hs by apply Hnil.
  now injection Hs.
Qed.

Lemma stamps_app (a b : list Event) : stamps (a ++ b) = stamps a ++ stamps b.
Proof.
  induction a as [|e a IH]; simpl; [reflexivity|].
  destruct e; simpl; now rewrite IH.
Qed.

Lemma stamps_probe (w : World) (url : string) (timeoutMs : Z) :
  stamps (probe_events w url timeoutMs)
  = map (stamp w) (seq (fetched w) (requests (probe_events w url timeoutMs))).
Proof.
  unfold probe_events, requests, stamp.
  destruct (hasAbortController w), (URL_resolve w url); simpl;
    try destruct (in_time w timeoutMs (fetched w)); reflexivity.
Qed.

(** The stamps of the requests of the loop are the readings of the wall
    clock for these requests, in order. *)
Lemma sampling_stamps (url : string) (samples : Z) (todo : nat) :
  forall (i : Z) (acc : list Z) (w : World),
    exists evs,
      trace (snd (sampling url samples todo i acc w)) = trace w ++ evs /\
      stamps evs = map (stamp w) (seq (fetched w) (requests evs)) /\
      requests evs
      = (match URL_resolve w url with Some _ => todo | None => 0 end)%nat.
Proof.
  induction todo as [|todo IH]; intros i acc w.
  - exists []. simpl. rewrite app_nil_r.
    repeat split. now destruct (URL_resolve w url).
  - destruct (probeRtt_run url 4200 w) as (w1 & e1 & E1 & A1 & _ & _ & Q1).
    pose proof (probeRtt_trace url 4200 w) as T1.
    rewrite E1 in T1; simpl in T1.
    assert (He1 : e1 = probe_events w url 4200).
    { destruct A1 as (_ & _ & _ & T & _). rewrite T in T1.
      now apply app_inv_head in T1. }
    subst e1.
    assert (exists w2 e2, (if i <? samples - 1 then wait 180 else ret tt) w1
                          = (Normal tt, w2) /\ after w1 e2 w2 /\
                          stamps e2 = [] /\ requests e2 = 0%nat)
      as (w2 & e2 & E2 & A2 & S2 & Q2).
    { destruct (i <? samples - 1).
      - destruct (wait_run 180 w1) as (w2 & E2 & A2).
        exists w2, [EvWait 180].
        exact (conj E2 (conj A2 (conj eq_refl eq_refl))).
      - exists w1, [].
        exact (conj eq_refl (conj (after_refl w1) (conj eq_refl eq_refl))). }
    set (acc1 := match attempt w url 4200 (fetched w) with
                 | ProbeOk r => acc ++ [r]
                 | ProbeFailed => acc
                 end).
    assert (Hrun : sampling url samples (S todo) i acc w
                   = sampling url samples todo (i + 1) acc1 w2).
    { simpl. unfold bind at 1. rewrite E1. unfold bind at 1.
      now rewrite E2. }
    rewrite Hrun.
    destruct (IH (i + 1) acc1 w2) as (e3 & T3 & S3 & Q3).
    pose proof (after_trans _ _ _ _ _ A1 A2) as A12.
    destruct A12 as ((_ & HU & _ & _ & HW & _) & _ & _ & T12 & F12).
    exists ((probe_events w url 4200 ++ e2) ++ e3).
    split; [rewrite T3, T12; now rewrite <- !app_assoc|].
    split.
    + rewrite !stamps_app, !requests_app, S2, S3, Q2, stamps_probe.
      rewrite app_nil_r, Nat.add_0_r, seq_app, map_app. f_equal.
      unfold stamp. rewrite HW, F12, requests_app, Q2.
      now rewrite Nat.add_0_r.
    + rewrite !requests_app, Q1, Q2, Q3, HU.
      destruct (URL_resolve w url); lia.
Qed.

Lemma NoDup_decimal (zs : list Z) :
  NoDup (map (fun z => Some (JS.toString z)) zs) <-> NoDup zs.
Proof.
  split; [apply NoDup_map_inv|].
  induction 1 as [|z zs Hz _ IH]; simpl; constructor; [|exact IH].
  intros Hin. apply in_map_iff in Hin. destruct Hin as (z' & Heq & Hz').
  injection Heq as Heq. apply toString_inj in Heq. now subst z'.
Qed.

(** X18. The [_pv] parameters of the requests of a run of the sampler are
    the decimal forms of what [Date.now()] read when the requests were
    prepared, one reading for each request, in order. So two requests of a
    run carry the same parameter exactly when [Date.now()] read the same
    millisecond for both: within a run, cache busting is as good as the
    wall clock, which is not the clock the round-trip times are taken
    from. *)
Theorem cache_bust_stamps_are_wall_readings (url : string) (n : Z) (w : World) :
  exists evs,
    trace (snd (measureRtt url n w)) = trace w ++ evs /\
    requests evs
    = (match URL_resolve w url with Some _ => Z.to_nat n | None => 0 end)%nat /\
    stamps evs
    = map (fun k => Some (JS.toString (wall w k)))
        (seq (fetched w) (requests evs)) /\
    (NoDup (stamps evs)
     <-> NoDup (map (wall w) (seq (fetched w) (requests evs)))).
Proof.
  rewrite measureRtt_world.
  destruct (sampling_stamps url n (Z.to_nat n) 0 [] w) as (evs & T & S & Q).
  exists evs. split; [exact T|]. split; [exact Q|]. split; [exact S|].
  rewrite S. unfold stamp.
  rewrite <- (map_map (wall w) (fun z => Some (JS.toString z))).
  apply NoDup_decimal.
Qed.

Lemma cache_bust_stamps_are_wall_readings_witness :
  exists evs,
    trace (snd (measureRtt "ping" 3 three_answers)) = trace three_answers ++ evs /\
    stamps evs = [Some "1767225600000"; Some "1767225604380";
                  Some "1767225608760"]%string /\
    NoDup (stamps evs).
Proof.
  destruct (cache_bust_stamps_are_wall_readings "ping" 3 three_answers)
    as (evs & T & Q & S & D).
  change (requests evs = 3%nat) in Q. rewrite Q in S, D.
  exists evs. split; [exact T|]. split; [exact S|].
  apply D. vm_compute.
  repeat constructor; simpl; intuition discriminate.
Defined.

(* ================================================================= *)
(** ** The reveal animation *)

Lemma in_view_In (item : Reveal.Item) :
  Reveal.in_view item = true <-> In "in-view"%string (Reveal.classes item).
Proof.
  unfold Reveal.in_view. rewrite existsb_exists. split.
  - intros (c & Hc & Heq). apply String.eqb_eq in Heq. now subst c.
  - intros H. exists "in-view"%string. split; [exact H | reflexivity].
Qed.

Lemma only_revealed_refl (item : Reveal.Item) : Reveal.only_revealed item item.
Proof. unfold Reveal.only_revealed. auto. Qed.

Lemma only_revealed_trans (a b c : Reveal.Item) :
  Reveal.only_revealed a b -> Reveal.only_revealed b c ->
  Reveal.only_revealed a c.
Proof.
  intros (D1 & U1 & L1) (D2 & U2 & L2). split; [congruence|]. split.
  - auto.
  - intros x Hx. destruct (L2 x Hx) as [->|Hb]; auto.
Qed.

Lemma only_revealed_add (item : Reveal.Item) :
  Reveal.only_revealed item (Reveal.add_class "in-view" item) /\
  Reveal.in_view (Reveal.add_class "in-view" item) = true.
Proof.
  split.
  - split; [reflexivity|]. simpl. split; intros c; rewrite classList_add_In; auto.
  - apply in_view_In. simpl. apply classList_add_In. now left.
Qed.

Lemma nth_error_forEach_indexed (f : nat -> Reveal.Item -> Reveal.Item)
    (l : list Reveal.Item) :
  forall index k,
    nth_error (Reveal.forEach_indexed f index l) k
    = option_map (f (index + k)%nat) (nth_error l k).
Proof.
  induction l as [|item l IH]; intros index k; simpl.
  - now destruct k.
  - destruct k as [|k]; simpl.
    + now rewrite Nat.add_0_r.
    + rewrite IH. now rewrite Nat.add_succ_r.
Qed.

(** X19. With reduced motion, or without [IntersectionObserver], every
    item is shown at once: each gets the class [in-view] and nothing
    else changes (no other class, no transition delay), and nothing is
    observed. *)
Theorem reveal_without_animation
    (prefersReduced hasObserver : bool) (l : list Reveal.Item) :
  prefersReduced = true \/ hasObserver = false ->
  Reveal.observed (Reveal.setup prefersReduced hasObserver l) = [] /\
  forall k item,
    nth_error l k = Some item ->
    exists item',
      nth_error (Reveal.items (Reveal.setup prefersReduced hasObserver l)) k
      = Some item' /\
      Reveal.in_view item' = true /\
      Reveal.only_revealed item item'.
Proof.
  intros Hmode.
  assert (Hb : prefersReduced || negb hasObserver = true)
    by (destruct Hmode as [-> | ->]; [reflexivity | apply orb_true_r]).
  unfold Reveal.setup. rewrite Hb.
  destruct l as [|first l]; simpl.
  - split; [reflexivity|]. intros [|k] item H; discriminate.
  - split; [reflexivity|]. intros k item Hk.
    change (Reveal.add_class "in-view" first :: Reveal.showAll l)
      with (Reveal.showAll (first :: l)).
    unfold Reveal.showAll. rewrite nth_error_map, Hk. simpl.
    eexists. split; [reflexivity|].
    split; apply only_revealed_add.
Qed.

Lemma reveal_without_animation_witness :
  Reveal.observed
    (Reveal.setup true true
       [{| Reveal.classes := ["card"%string]; Reveal.transitionDelay := None |}])
  = [] /\
  exists item',
    nth_error
      (Reveal.items
         (Reveal.setup true true
            [{| Reveal.classes := ["card"%string];
                Reveal.transitionDelay := None |}])) 0
    = Some item' /\
    Reveal.in_view item' = true.
Proof.
  destruct (reveal_without_animation true true
              [{| Reveal.classes := ["card"%string];
                  Reveal.transitionDelay := None |}]) as (Hobs & Hitems);
    [now left|].
  split; [exact Hobs|].
  destruct (Hitems 0%nat _ eq_refl) as (item' & E & V & _).
  exists item'. exact (conj E V).
Defined.

(** X20. With animation, every item is observed, gets the class
    [reveal-ready] and keeps its other classes (none is shown yet unless
    it was), and the item of index [k] gets a transition delay of
    [min (70 * k) 280] ms: 0, 70, 140 and 210 for the first four and 280
    from the fifth on. *)
Theorem reveal_staggers_up_to_280 (l : list Reveal.Item) :
  l <> [] ->
  Reveal.observed (Reveal.setup false true l) = seq 0 (List.length l) /\
  forall k item,
    nth_error l k = Some item ->
    exists item' delay,
      nth_error (Reveal.items (Reveal.setup false true l)) k = Some item' /\
      Reveal.transitionDelay item' = Some delay /\
      0 <= delay <= 280 /\
      ((k < 4)%nat -> delay = 70 * Z.of_nat k) /\
      ((4 <= k)%nat -> delay = 280) /\
      In "reveal-ready"%string (Reveal.classes item') /\
      (forall c, c <> "reveal-ready"%string ->
                 (In c (Reveal.classes item') <-> In c (Reveal.classes item))).
Proof.
  intros Hl. unfold Reveal.setup. destruct l as [|first l]; [congruence|].
  cbn [orb negb Reveal.items Reveal.observed].
  split; [reflexivity|].
  intros k item Hk. rewrite nth_error_forEach_indexed, Hk. simpl option_map.
  eexists _, _. split; [reflexivity|]. split; [reflexivity|].
  cbn [Reveal.prepare Reveal.classes].
  split; [lia|]. split; [lia|]. split; [lia|].
  split.
  - apply classList_add_In. now left.
  - intros c Hc. rewrite classList_add_In. tauto.
Qed.

Lemma reveal_staggers_up_to_280_witness :
  exists item' delay,
    nth_error
      (Reveal.items
         (Reveal.setup false true
            (repeat {| Reveal.classes := []; Reveal.transitionDelay := None |} 7)))
      5
    = Some item' /\
    Reveal.transitionDelay item' = Some delay /\ delay = 280.
Proof.
  destruct (reveal_staggers_up_to_280
              (repeat {| Reveal.classes := []; Reveal.transitionDelay := None |} 7))
    as (_ & H); [discriminate|].
  destruct (H 5%nat _ eq_refl) as (item' & delay & E & D & _ & _ & Hcap & _).
  exists item', delay. refine (conj E (conj D (Hcap _))). lia.
Defined.

Lemma nth_error_update (f : Reveal.Item -> Reveal.Item) (l : list Reveal.Item) :
  forall position k,
    nth_error (Reveal.update position f l) k
    = if Nat.eqb k position then option_map f (nth_error l k)
      else nth_error l k.
Proof.
  induction l as [|item l IH]; intros position k; simpl.
  - destruct position, k, (Nat.eqb _ _); reflexivity.
  - destruct position as [|position], k as [|k]; simpl; try reflexivity.
    apply IH.
Qed.

Lemma on_entry_item (p : Reveal.Page) (entry : nat * bool) (k : nat)
    (item : Reveal.Item) :
  nth_error (Reveal.items p) k = Some item ->
  exists item',
    nth_error (Reveal.items (Reveal.on_entry p entry)) k = Some item' /\
    Reveal.only_revealed item item' /\
    (entry = (k, true) -> Reveal.in_view item' = true) /\
    (entry <> (k, true) -> item' = item).
Proof.
  intros Hk. unfold Reveal.on_entry. destruct entry as [target [|]]; simpl.
  - rewrite nth_error_update, Hk.
    destruct (Nat.eqb_spec k target) as [->|Hne]; simpl.
    + eexists. split; [reflexivity|].
      split; [apply only_revealed_add|].
      split; [intros _; apply only_revealed_add | congruence].
    + exists item. split; [reflexivity|].
      split; [apply only_revealed_refl|]. split; [congruence | reflexivity].
  - exists item. split; [exact Hk|].
    split; [apply only_revealed_refl|]. split; [discriminate | reflexivity].
Qed.

Lemma on_entry_observed (p : Reveal.Page) (entry : nat * bool) (k : nat) :
  In k (Reveal.observed (Reveal.on_entry p entry)) <->
  In k (Reveal.observed p) /\ entry <> (k, true).
Proof.
  unfold Reveal.on_entry. destruct entry as [target [|]]; simpl.
  - split.
    + intros H. apply in_remove in H. destruct H as [H Hne].
      split; [exact H | congruence].
    + intros [H Hne]. apply in_in_remove; [congruence | exact H].
  - split; [|tauto]. intros H. split; [exact H | discriminate].
Qed.

(** X21. The observer's callback only reveals: every item keeps its
    classes and its delay and may gain [in-view]; the target of every
    intersecting entry has [in-view] afterwards and is no longer observed;
    an item that is the target of no intersecting entry is left as it
    was, and stays observed if it was; nothing becomes observed. *)
Theorem reveal_callback_only_reveals
    (entries : list (nat * bool)) (p : Reveal.Page) (k : nat) (item : Reveal.Item) :
  nth_error (Reveal.items p) k = Some item ->
  exists item',
    nth_error (Reveal.items (Reveal.callback entries p)) k = Some item' /\
    Reveal.only_revealed item item' /\
    (In (k, true) entries ->
     Reveal.in_view item' = true /\
     ~ In k (Reveal.observed (Reveal.callback entries p))) /\
    (~ In (k, true) entries ->
     item' = item /\
     (In k (Reveal.observed p) ->
      In k (Reveal.observed (Reveal.callback entries p)))) /\
    (In k (Reveal.observed (Reveal.callback entries p)) ->
     In k (Reveal.observed p)).
Proof.
  unfold Reveal.callback.
  revert p item; induction entries as [|entry entries IH]; intros p item Hk.
  - exists item. simpl. split; [exact Hk|].
    split; [apply only_revealed_refl|]. tauto.
  - destruct (on_entry_item p entry k item Hk) as (item1 & H1 & R1 & V1 & S1).
    destruct (IH (Reveal.on_entry p entry) item1 H1)
      as (item' & H' & R' & Hin & Hout & Hobs).
    pose proof (on_entry_observed p entry k) as O1.
    exists item'. simpl fold_left. split; [exact H'|].
    split; [eapply only_revealed_trans; eassumption|].
    split; [|split].
    + intros [Hhere | Hlater].
      * split.
        -- apply in_view_In. destruct R' as (_ & Up & _). apply Up.
           apply in_view_In. now apply V1.
        -- intros Hk'. apply Hobs, O1 in Hk'. tauto.
      * exact (Hin Hlater).
    + intros Hnot.
      assert (Hne : entry <> (k, true)) by (intros ->; apply Hnot; now left).
      assert (Hnot' : ~ In (k, true) entries) by (intros H; apply Hnot; now right).
      destruct (Hout Hnot') as (Heq & Hkeep).
      split; [rewrite Heq; now apply S1|].
      intros Hobserved. apply Hkeep, O1. tauto.
    + intros Hk'. apply Hobs, O1 in Hk'. tauto.
Qed.

Lemma reveal_callback_only_reveals_witness :
  exists item',
    nth_error
      (Reveal.items
         (Reveal.callback [(0%nat, false); (1%nat, true)]
            (Reveal.setup false true
               (repeat {| Reveal.classes := [];
                          Reveal.transitionDelay := None |} 3)))) 1
    = Some item' /\
    Reveal.in_view item' = true /\
    ~ In 1%nat
        (Reveal.observed
           (Reveal.callback [(0%nat, false); (1%nat, true)]
              (Reveal.setup false true
                 (repeat {| Reveal.classes := [];
                            Reveal.transitionDelay := None |} 3)))).
Proof.
  destruct (reveal_callback_only_reveals [(0%nat, false); (1%nat, true)]
              (Reveal.setup false true
                 (repeat {| Reveal.classes := [];
                            Reveal.transitionDelay := None |} 3))
              1%nat _ eq_refl) as (item' & E & _ & Hin & _).
  destruct Hin as (V & O); [simpl; auto|].
  exists item'. exact (conj E (conj V O)).
Defined.

(** Rounding to 53 bits changes a number by at most one part in 2^53. *)
Lemma round53_relative (p : Z) :
  0 <= p ->
  (2 ^ 53 - 1) * p <= 2 ^ 53 * JS.round53 p <= (2 ^ 53 + 1) * p.
Proof.
  intros Hp. unfold JS.round53.
  destruct (Z.ltb_spec p (2 ^ 53)) as [Hsmall|Hbig]; [lia|].
  assert (Hpos : 0 < p) by lia.
  assert (Hlo : 53 <= Z.log2 p) by (apply Z.log2_le_pow2; lia).
  destruct (Z.log2_spec p Hpos) as [Hlog _].
  set (s := Z.log2 p - 52) in *.
  assert (Hs : 1 <= s) by lia.
  replace (Z.log2 p) with (s - 1 + 1 + 52) in Hlog by lia.
  rewrite !Z.pow_add_r in Hlog by lia. change (2 ^ 1) with 2 in Hlog.
  replace (2 ^ s) with (2 * 2 ^ (s - 1))
    by (rewrite <- Z.pow_succ_r by lia; f_equal; lia).
  assert (Hh : 1 <= 2 ^ (s - 1))
    by (apply (Z.pow_le_mono_r 2 0 (s - 1)); lia).
  clearbody s. set (h := 2 ^ (s - 1)) in *. clearbody h.
  pose proof (Z.div_mod p (2 * h) ltac:(lia)) as Hdm.
  pose proof (Z.mod_pos_bound p (2 * h) ltac:(lia)) as Hr.
  assert (Hq : 2 ^ 52 <= p / (2 * h))
    by (apply Z.div_le_lower_bound; lia).
  set (q := p / (2 * h)) in *. set (r := p mod (2 * h)) in *.
  clearbody q r.
  assert (Hhq : h * 2 ^ 52 <= h * q) by (apply Z.mul_le_mono_nonneg_l; lia).
  destruct ((h <? r) || ((r =? h) && Z.odd q)) eqn:Hup.
  - assert (h <= r).
    { apply orb_true_iff in Hup. destruct Hup as [Hup|Hup].
      - apply Z.ltb_lt in Hup; lia.
      - apply andb_true_iff in Hup. destruct Hup as [Hup _].
        apply Z.eqb_eq in Hup; lia. }
    nia.
  - assert (r <= h).
    { apply orb_false_iff in Hup. destruct Hup as [Hup _].
      apply Z.ltb_ge in Hup. exact Hup. }
    nia.
Qed.

(** The threshold of the fallback lies between nine tenths of the height
    of the window and that height. *)
Lemma near_viewport_threshold (innerHeight : Z) :
  0 <= innerHeight ->
  (Reveal.to_Q (JS.Double_mul Reveal.ninety_two_percent innerHeight)
   <= inject_Z innerHeight)%Q /\
  (0 < innerHeight ->
   ((9 # 10) * inject_Z innerHeight
    < Reveal.to_Q (JS.Double_mul Reveal.ninety_two_percent innerHeight))%Q).
Proof.
  intros Hh.
  unfold Reveal.to_Q, JS.Double_mul, Reveal.ninety_two_percent.
  cbn [JS.mantissa JS.scale].
  pose proof (round53_relative (8286623314361713 * innerHeight) ltac:(lia)) as Hr.
  set (x := JS.round53 (8286623314361713 * innerHeight)) in *. clearbody x.
  change (Z.to_pos (2 ^ 53)) with 9007199254740992%positive.
  change (2 ^ 53) with 9007199254740992 in Hr.
  unfold Qle, Qlt, Qmult, inject_Z. cbn [Qnum Qden].
  split; [|intros Hpos]; lia.
Qed.

Lemma nth_error_rescue_all (innerHeight : Z) (l : list Reveal.Item) :
  forall (rects : list Reveal.Rect) k item rect,
    nth_error l k = Some item -> nth_error rects k = Some rect ->
    nth_error (Reveal.rescue_all innerHeight l rects) k
    = Some (Reveal.rescue innerHeight item rect).
Proof.
  induction l as [|x l IH]; intros rects k item rect Hk Hr.
  - destruct k; discriminate.
  - destruct rects as [|y rects]; [destruct k; discriminate|].
    destruct k as [|k]; simpl in *.
    + congruence.
    + now apply IH.
Qed.

(** X22. The fallback only reveals, and does not touch the observer: an
    item that already has [in-view] is left alone; so is an item that
    lies wholly below the window (its top is at or below the height of
    the window) or wholly above it (its bottom is at or above the top
    edge); an item not yet shown whose top is within nine tenths of the
    height and whose bottom is below the top edge gets [in-view]. *)
Theorem reveal_fallback_spares_offscreen
    (innerHeight : Z) (rects : list Reveal.Rect) (p : Reveal.Page)
    (k : nat) (item : Reveal.Item) (rect : Reveal.Rect) :
  0 <= innerHeight < 2 ^ 53 ->
  nth_error (Reveal.items p) k = Some item ->
  nth_error rects k = Some rect ->
  Reveal.observed (Reveal.fallback innerHeight rects p) = Reveal.observed p /\
  exists item',
    nth_error (Reveal.items (Reveal.fallback innerHeight rects p)) k
    = Some item' /\
    Reveal.only_revealed item item' /\
    (Reveal.in_view item = true -> item' = item) /\
    ((inject_Z innerHeight <= Reveal.top rect)%Q \/ (Reveal.bottom rect <= 0)%Q ->
     item' = item) /\
    (Reveal.in_view item = false -> 0 < innerHeight ->
     (Reveal.top rect <= (9 # 10) * inject_Z innerHeight)%Q ->
     (0 < Reveal.bottom rect)%Q ->
     Reveal.in_view item' = true).
Proof.
  intros [Hh _] Hk Hrect.
  destruct (near_viewport_threshold innerHeight Hh) as [Hupper Hlower].
  split; [reflexivity|].
  exists (Reveal.rescue innerHeight item rect).
  split; [now apply nth_error_rescue_all|].
  unfold Reveal.rescue, Reveal.near_viewport.
  destruct (Reveal.in_view item) eqn:Hview.
  - split; [apply only_revealed_refl|].
    split; [reflexivity|]. split; [reflexivity|]. discriminate.
  - destruct (JS.Qltb (Reveal.top rect) _) eqn:Htop;
      destruct (JS.Qltb 0 (Reveal.bottom rect)) eqn:Hbottom; simpl.
    + split; [apply only_revealed_add|].
      split; [discriminate|]. split.
      * apply Qltb_lt in Htop, Hbottom. intros [Hbelow | Habove].
        -- exfalso. apply (Qlt_not_le _ _ Htop).
           eapply Qle_trans; eassumption.
        -- exfalso. now apply (Qlt_not_le _ _ Hbottom).
      * intros _ _ _ _. apply only_revealed_add.
    + split; [apply only_revealed_refl|].
      split; [reflexivity|]. split; [reflexivity|].
      intros _ _ _ Hb. apply Qltb_lt in Hb. congruence.
    + split; [apply only_revealed_refl|].
      split; [reflexivity|]. split; [reflexivity|].
      intros _ Hpos Ht _. exfalso.
      assert (Hlt : (Reveal.top rect
                     < Reveal.to_Q (JS.Double_mul Reveal.ninety_two_percent
                                      innerHeight))%Q)
        by (eapply Qle_lt_trans; [exact Ht | now apply Hlower]).
      apply Qltb_lt in Hlt. congruence.
    + split; [apply only_revealed_refl|].
      split; [reflexivity|]. split; [reflexivity|].
      intros _ _ _ Hb. apply Qltb_lt in Hb. congruence.
Qed.

Lemma reveal_fallback_spares_offscreen_witness :
  0 <= 800 < 2 ^ 53 /\
  exists item',
    nth_error
      (Reveal.items
         (Reveal.fallback 800
            [{| Reveal.top := 100 # 1; Reveal.bottom := 300 # 1 |}]
            {| Reveal.items := [{| Reveal.classes := ["reveal-ready"%string];
                                   Reveal.transitionDelay := Some 0 |}];
               Reveal.observed := [0%nat] |})) 0
    = Some item' /\
    Reveal.in_view item' = true.
Proof.
  assert (Hh : 0 <= 800 < 2 ^ 53) by (split; [lia | reflexivity]).
  split; [exact Hh|].
  destruct (reveal_fallback_spares_offscreen 800
              [{| Reveal.top := 100 # 1; Reveal.bottom := 300 # 1 |}]
              {| Reveal.items := [{| Reveal.classes := ["reveal-ready"%string];
                                     Reveal.transitionDelay := Some 0 |}];
                 Reveal.observed := [0%nat] |}
              0%nat _ _ Hh eq_refl eq_refl)
    as (_ & item' & E & _ & _ & _ & Hshow).
  exists item'. split; [exact E|].
  apply Hshow; [reflexivity | lia | |]; unfold Qle, Qlt; simpl; lia.
Defined.

(* ================================================================= *)
(** ** What a card can display *)

(** The state and the text the classifier renders. *)
Lemma classify_text (fast slow : Z) (result : AggregateResult) (w : World) :
  exists s valueText w0,
    classify fast slow result w = setPingState s valueText w0 /\
    trace w0 = trace w /\
    ((s = down /\ valueText = "недоступен"%string) \/
     (s = up /\ exists r, rtt result = Some r /\ r < fast /\
                          valueText = (JS.toString r ++ " мс")%string) \/
     (s = warn /\
      valueText
      = (JS.toString
           (JS.Math_floor (JS.Double_mul (random w (drawn w)) 11) + 150)
         ++ " мс")%string)).
Proof.
  unfold classify.
  destruct (negb (reachable result)).
  { exists down, "недоступен"%string, w. auto. }
  destruct (JS.lt (rtt result) fast) eqn:Hlt.
  { exists up, (JS.template (rtt result) ++ " мс")%string, w.
    split; [reflexivity|]. split; [reflexivity|]. right; left.
    split; [reflexivity|].
    destruct (rtt result) as [r|]; [|discriminate].
    exists r. simpl in Hlt. apply Z.ltb_lt in Hlt. auto. }
  destruct (JS.le (rtt result) slow).
  - unfold randomWarnPing, Math_random, bind, ret. cbv beta iota.
    eexists warn, _, (set_drawn (S (drawn w)) w).
    split; [reflexivity|]. split; [reflexivity|]. right; right. auto.
  - exists down, "недоступен"%string, w. auto.
Qed.

(** X23. The text of a card agrees with its state. When no request
    settles at a negative time and [Math.random()] gives a number of
    [[0, 1)], the handler ends by rendering either [down] with the text
    ["недоступен"], or [up] with ["r мс"] for a round-trip time
    [0 <= r < 150], or [warn] with ["v мс"] for some [150 <= v <= 160]. *)
Theorem card_text_agrees_with_state (w : World) :
  causal w ->
  JS.in_unit_interval (random w (drawn w)) = true ->
  exists evs0 s valueText,
    trace (snd (pingCard_handler w))
    = trace w ++ evs0 ++ [EvSetPingState s valueText] /\
    renders evs0 = [] /\
    ((s = down /\ valueText = "недоступен"%string) \/
     (s = up /\ exists r, 0 <= r < 150 /\
                          valueText = (JS.toString r ++ " мс")%string) \/
     (s = warn /\ exists v, 150 <= v <= 160 /\
                            valueText = (JS.toString v ++ " мс")%string)).
Proof.
  intros Hc Hu.
  unfold pingCard_handler, pingCard_handler_with. unfold bind at 1. unfold gets.
  assert (Hidle : exists evs0 s valueText,
             trace (snd (setPingState down "недоступен" w))
             = trace w ++ evs0 ++ [EvSetPingState s valueText] /\
             renders evs0 = [] /\
             ((s = down /\ valueText = "недоступен"%string) \/
              (s = up /\ exists r, 0 <= r < 150 /\
                                   valueText = (JS.toString r ++ " мс")%string) \/
              (s = warn /\ exists v, 150 <= v <= 160 /\
                                     valueText = (JS.toString v ++ " мс")%string))).
  { destruct (setPingState_run down "недоступен" w) as (w' & E & T & _).
    exists [], down, "недоступен"%string. rewrite E. simpl. auto. }
  destruct (pingUrl (card w)) as [url|]; [|exact Hidle].
  destruct (String.eqb url EmptyString); [exact Hidle|].
  destruct (measureRtt_run url 3 w) as (w1 & evs & E & A & _ & R & _).
  destruct A as ((_ & _ & _ & Hrandom & _) & Hdrawn & _ & T & _).
  unfold bind. rewrite E.
  set (result := reduce (successes (attempts w url (Z.to_nat 3))) 3).
  destruct (classify_text 150 700 result w1) as (s & v & w0 & Ec & T0 & Hsv).
  rewrite Ec.
  destruct (setPingState_run s v w0) as (w' & E' & T' & _).
  rewrite E'. simpl snd. exists evs, s, v.
  split; [rewrite T', T0, T; now rewrite <- app_assoc|].
  split; [exact R|].
  destruct Hsv as [Hdown | [(-> & r & Hr & Hfast & ->) | (-> & ->)]].
  - left. exact Hdown.
  - right; left. split; [reflexivity|]. exists r.
    split; [|reflexivity]. split; [|exact Hfast].
    apply (aggregate_rtt_nonneg url 3 w Hc result r); [now rewrite E | exact Hr].
  - right; right. split; [reflexivity|].
    eexists. split; [|reflexivity].
    rewrite Hrandom, Hdrawn. now apply randomWarnPing_band.
Qed.

Lemma card_text_agrees_with_state_witness :
  causal three_answers /\
  JS.in_unit_interval (random three_answers (drawn three_answers)) = true /\
  exists evs0 s valueText,
    trace (snd (pingCard_handler three_answers))
    = trace three_answers ++ evs0 ++ [EvSetPingState s valueText] /\
    renders evs0 = [].
Proof.
  assert (Hu : JS.in_unit_interval (random three_answers (drawn three_answers))
               = true) by reflexivity.
  refine (conj three_answers_causal (conj Hu _)).
  destruct (card_text_agrees_with_state three_answers three_answers_causal Hu)
    as (evs0 & s & v & T & R & _).
  exists evs0, s, v. exact (conj T R).
Defined.
